(** * S3Handler: a facade over an object-storage client

    A shallow embedding of [s3_handler.py].  The class [S3Handler] holds two
    injected collaborators (a boto3 client and a boto3 resource) and calls
    the local operating system in [download_file].  The collaborators are an
    interface here ([Env]); every method of the class is a computation in a
    small monad that threads the state of the outside world, records each
    call that leaves the module together with its result, and records each
    value a generator yields.  [Mock] is an in-memory implementation of the
    interface after the documented behaviour of the service. *)

From Stdlib Require Import ZArith Lia.
From Stdlib Require Import Strings.String Strings.Ascii Strings.Byte.
From Stdlib Require Import Numbers.DecimalString Numbers.DecimalNat.
From stdpp Require Import base option list gmap strings sorting.

Local Open Scope string_scope.
Local Open Scope list_scope.

(** ** Python values *)

Module Py.

(** The exceptions that can travel through the methods of the class. *)
Inductive exn : Type :=
| ClientError (code : string)        (* botocore.exceptions.ClientError *)
| EndpointConnectionError            (* botocore: the network failed *)
| IndexError                         (* list index out of range *)
| UnicodeDecodeError
| LookupError                        (* unknown encoding *)
| FileNotFoundError (path : string)
| FileExistsError (path : string)
| PermissionError (path : string)
| NotADirectoryError                 (* a directory of the path is a regular file *)
| IsADirectoryError.                 (* the path of the file is a directory *)

Definition bytes := list byte.

(** [read_file] returns a [str], or the raw [bytes] when no decoding is
    asked for. *)
Inductive value : Type :=
| Str (s : string)
| Bytes (b : bytes).

(** [bool(s)] for a string: the empty string is false. *)
Definition truthy (s : string) : bool :=
  match s with
  | EmptyString => false
  | String _ _ => true
  end.

(** [l[-1]] *)
Definition last_item {A} (l : list A) : exn + A :=
  match last l with
  | Some x => inr x
  | None => inl IndexError
  end.

Definition sep : ascii := "/"%char.

Definition startswith_sep (s : string) : bool :=
  match s with
  | String c _ => Ascii.eqb c sep
  | EmptyString => false
  end.

Fixpoint endswith_sep (s : string) : bool :=
  match s with
  | EmptyString => false
  | String c EmptyString => Ascii.eqb c sep
  | String _ s' => endswith_sep s'
  end.

(** [s.rfind('/')], the positions of [s] counted from [i]; -1 when there
    is none. *)
Fixpoint rfind_sep_from (i : Z) (s : string) : Z :=
  match s with
  | EmptyString => -1
  | String c s' =>
      let r := rfind_sep_from (i + 1) s' in
      if (0 <=? r)%Z then r else if Ascii.eqb c sep then i else (-1)%Z
  end.

Definition rfind_sep (s : string) : Z := rfind_sep_from 0 s.

(** ['/' in s] *)
Fixpoint contains_sep (s : string) : bool :=
  match s with
  | EmptyString => false
  | String c s' => Ascii.eqb c sep || contains_sep s'
  end.

(** [s == '/' * len(s)] *)
Fixpoint all_sep (s : string) : bool :=
  match s with
  | EmptyString => true
  | String c s' => Ascii.eqb c sep && all_sep s'
  end.

(** [s.rstrip('/')] *)
Fixpoint rstrip_sep (s : string) : string :=
  match s with
  | EmptyString => EmptyString
  | String c s' =>
      match rstrip_sep s' with
      | EmptyString => if Ascii.eqb c sep then EmptyString else String c EmptyString
      | t => String c t
      end
  end.

(** [posixpath.dirname]:
<<
    i = p.rfind('/') + 1
    head = p[:i]
    if head and head != '/'*len(head):
        head = head.rstrip('/')
    return head
>> *)
Definition dirname (p : string) : string :=
  let i := (rfind_sep p + 1)%Z in
  let head := String.substring 0 (Z.to_nat i) p in
  if truthy head && negb (all_sep head) then rstrip_sep head else head.

(** [posixpath.join(a, b)]:
<<
    if b.startswith('/'): path = b
    elif not path or path.endswith('/'): path += b
    else: path += '/' + b
>> *)
Definition join (a b : string) : string :=
  if startswith_sep b then b
  else if negb (truthy a) || endswith_sep a then a ++ b
  else a ++ "/" ++ b.

End Py.

Import Py.

(** ** The shapes of the SDK's requests and responses *)

Record S3Object := { Key : string; Size : Z }.

Record CommonPrefix := { Prefix : string }.

Record ListObjectsV2Request := {
  req_Bucket : string;
  req_Prefix : string;
  req_Delimiter : option string;
  req_MaxKeys : option Z;
  req_StartAfter : option string;
  req_ContinuationToken : option string
}.

(** A response is a dict: [Contents], [CommonPrefixes] and
    [NextContinuationToken] are keys that may be missing. *)
Record ListObjectsV2Output := {
  Contents : option (list S3Object);
  CommonPrefixes : option (list CommonPrefix);
  IsTruncated : bool;
  NextContinuationToken : option string
}.

Record HeadObjectOutput := { ContentLength : Z }.

Record BucketEntry := { Name : string }.

Record ListBucketsOutput := { Buckets : list BucketEntry }.

(** ** What an observer of a run sees *)

Inductive event : Type :=
| Yield (item : string)
| EvObjectGet (bucket key : string) (r : exn + bytes)
| EvObjectPut (bucket key body : string) (r : exn + unit)
| EvObjectCopyFrom (bucket key copy_source : string) (r : exn + unit)
| EvObjectDelete (bucket key : string) (r : exn + unit)
| EvBucketUploadFile (bucket filename key : string) (r : exn + unit)
| EvDownloadFile (bucket key filename : string) (r : exn + unit)
| EvHeadObject (bucket key : string) (r : exn + HeadObjectOutput)
| EvListBuckets (r : exn + ListBucketsOutput)
| EvListObjectsV2 (req : ListObjectsV2Request) (r : exn + ListObjectsV2Output)
| EvPathExists (path : string) (r : bool)
| EvMakedirs (path : string) (r : exn + unit).

Inductive outcome (A : Type) : Type :=
| Returned (a : A)
| Raised (e : exn)
| OutOfFuel.

Arguments Returned {A} a.
Arguments Raised {A} e.
Arguments OutOfFuel {A}.

(** The values a generator yielded, in order. *)
Definition yields (tr : list event) : list string :=
  omap (fun ev => match ev with Yield s => Some s | _ => None end) tr.

(** The listing calls of a run, in order. *)
Definition listing_calls (tr : list event)
  : list (ListObjectsV2Request * (exn + ListObjectsV2Output)) :=
  omap (fun ev => match ev with EvListObjectsV2 q r => Some (q, r) | _ => None end) tr.

(** The error of a call to the storage client or resource, when the event
    is such a call and it failed. *)
Definition sdk_failure (ev : event) : option exn :=
  match ev with
  | EvObjectGet _ _ (inl e) | EvObjectPut _ _ _ (inl e)
  | EvObjectCopyFrom _ _ _ (inl e) | EvObjectDelete _ _ (inl e)
  | EvBucketUploadFile _ _ _ (inl e) | EvDownloadFile _ _ _ (inl e)
  | EvHeadObject _ _ (inl e) | EvListBuckets (inl e)
  | EvListObjectsV2 _ (inl e) => Some e
  | _ => None
  end.

(** ** The collaborators *)

(** [self._resource] and [self._client] (the collaborators that
    [__init__] takes or builds), the [os] module and the codecs of
    [bytes.decode], over the state of the outside world.  A call returns
    its value or the exception it raised, and the world after it. *)
Class Env := {
  world : Type;
  (* self._resource.Object(bucket, key).get()['Body'].read() *)
  object_get : string -> string -> world -> (exn + bytes) * world;
  (* self._resource.Object(bucket, key).put(Body=body) *)
  object_put : string -> string -> string -> world -> (exn + unit) * world;
  (* self._resource.Object(bucket, key).copy_from(CopySource=src) *)
  object_copy_from : string -> string -> string -> world -> (exn + unit) * world;
  (* self._resource.Object(bucket, key).delete() *)
  object_delete : string -> string -> world -> (exn + unit) * world;
  (* self._resource.Bucket(bucket).upload_file(filename, key) *)
  bucket_upload_file : string -> string -> string -> world -> (exn + unit) * world;
  (* self._client.download_file(bucket, key, filename) *)
  client_download_file : string -> string -> string -> world -> (exn + unit) * world;
  (* self._client.head_object(Bucket=bucket, Key=key) *)
  client_head_object : string -> string -> world -> (exn + HeadObjectOutput) * world;
  (* self._client.list_buckets() *)
  client_list_buckets : world -> (exn + ListBucketsOutput) * world;
  (* self._client.list_objects_v2(...) *)
  client_list_objects_v2 :
    ListObjectsV2Request -> world -> (exn + ListObjectsV2Output) * world;
  (* os.path.exists(path) *)
  os_path_exists : string -> world -> bool;
  (* os.makedirs(path) *)
  os_makedirs : string -> world -> (exn + unit) * world;
  (* content.decode(encoding) *)
  bytes_decode : bytes -> string -> exn + string
}.

(** ** The monad of the methods *)

Section Handler.

Context {E : Env}.

Record run (A : Type) := Run {
  trace : list event;
  result : outcome A;
  final : world
}.

Arguments Run {A} trace result final.
Arguments trace {A} r.
Arguments result {A} r.
Arguments final {A} r.

Definition M (A : Type) : Type := world -> run A.

Definition ret {A} (a : A) : M A := fun w => Run [] (Returned a) w.

Definition raise {A} (e : exn) : M A := fun w => Run [] (Raised e) w.

Definition out_of_fuel {A} : M A := fun w => Run [] OutOfFuel w.

Definition bind {A B} (m : M A) (k : A -> M B) : M B :=
  fun w =>
    let r := m w in
    match result r with
    | Returned a =>
        let r' := k a (final r) in
        Run (trace r ++ trace r') (result r') (final r')
    | Raised e => Run (trace r) (Raised e) (final r)
    | OutOfFuel => Run (trace r) OutOfFuel (final r)
    end.

Definition lift {A} (x : exn + A) : M A :=
  match x with
  | inl e => raise e
  | inr a => ret a
  end.

(** A call that leaves the module: it is recorded with its result, and
    its exception, if any, is the exception of the caller. *)
Definition perform {A} (ev : exn + A -> event)
    (call : world -> (exn + A) * world) : M A :=
  fun w =>
    let '(r, w') := call w in
    Run [ev r] (match r with inl e => Raised e | inr a => Returned a end) w'.

Definition yield (item : string) : M unit :=
  fun w => Run [Yield item] (Returned tt) w.

End Handler.

Arguments Run {E A} trace result final.
Arguments trace {E A} r.
Arguments result {E A} r.
Arguments final {E A} r.

Declare Scope py_scope.
Delimit Scope py_scope with py.
Notation "x <- c1 ;; c2" := (bind c1 (fun x => c2))
  (at level 100, c1 at next level, right associativity) : py_scope.
Notation "c1 ;; c2" := (bind c1 (fun _ => c2))
  (at level 100, right associativity) : py_scope.

Section Methods.

Context {E : Env}.

Local Open Scope py_scope.

(** [for x in l: body(x)] *)
Fixpoint for_each {A} (l : list A) (body : A -> M unit) : M unit :=
  match l with
  | [] => ret tt
  | x :: l' => body x ;; for_each l' body
  end.

Definition call_list_objects_v2 (req : ListObjectsV2Request) : M ListObjectsV2Output :=
  perform (EvListObjectsV2 req) (client_list_objects_v2 req).

(** [os.path.exists(path)]: a question to the operating system, which
    does not fail. *)
Definition path_exists (path : string) : M bool :=
  fun w => Run [EvPathExists path (os_path_exists path w)]
               (Returned (os_path_exists path w)) w.

(** The request of one turn of the loop of [iterate_dirs]: the token is
    passed only when it is not empty. *)
Definition dirs_request (bucket prefix continuation_token : string)
  : ListObjectsV2Request :=
  {| req_Bucket := bucket; req_Prefix := prefix;
     req_Delimiter := Some "/"; req_MaxKeys := None;
     req_StartAfter := None;
     req_ContinuationToken :=
       if truthy continuation_token then Some continuation_token else None |}.

Definition keys_per_page : Z := 10000.

(** The request of one turn of the loop of [iterate_keys]. *)
Definition keys_request (bucket prefix start_after_key : string)
  : ListObjectsV2Request :=
  {| req_Bucket := bucket; req_Prefix := prefix;
     req_Delimiter := None; req_MaxKeys := Some keys_per_page;
     req_StartAfter := Some start_after_key;
     req_ContinuationToken := None |}.

(** [read_file], lines 22-34. *)
Definition read_file (bucket key : string) (decode : string) : M value :=
  content <- perform (EvObjectGet bucket key) (object_get bucket key) ;;
  if truthy decode then
    content <- lift (bytes_decode content decode) ;;
    ret (Str content)
  else ret (Bytes content).

(** [write_file], lines 36-45. *)
Definition write_file (bucket key content : string) : M unit :=
  perform (EvObjectPut bucket key content) (object_put bucket key content).

(** [copy_file], lines 47-58. *)
Definition copy_file (src_bucket src_key trg_bucket trg_key : string) : M unit :=
  let src_full_key_path := join src_bucket src_key in
  perform (EvObjectCopyFrom trg_bucket trg_key src_full_key_path)
          (object_copy_from trg_bucket trg_key src_full_key_path).

(** [download_file], lines 60-71. *)
Definition download_file (bucket key local_file_path : string) : M unit :=
  let local_dir := dirname local_file_path in
  found <- path_exists local_dir ;;
  (if negb found then perform (EvMakedirs local_dir) (os_makedirs local_dir)
   else ret tt) ;;
  perform (EvDownloadFile bucket key local_file_path)
          (client_download_file bucket key local_file_path).

(** [upload_file], lines 73-82. *)
Definition upload_file (bucket key local_file_path : string) : M unit :=
  perform (EvBucketUploadFile bucket local_file_path key)
          (bucket_upload_file bucket local_file_path key).

(** [delete_file], lines 84-91. *)
Definition delete_file (bucket key : string) : M unit :=
  perform (EvObjectDelete bucket key) (object_delete bucket key).

(** [get_file_size], lines 93-101. *)
Definition get_file_size (bucket key : string) : M Z :=
  response <- perform (EvHeadObject bucket key) (client_head_object bucket key) ;;
  ret (ContentLength response).

(** [list_buckets], lines 103-108. *)
Definition list_buckets : M (list string) :=
  buckets <- perform EvListBuckets client_list_buckets ;;
  let buckets := Buckets buckets in
  let buckets := Name <$> buckets in
  ret buckets.

(** [iterate_dirs], lines 110-144.  One unit of fuel pays for one listing
    call; the pages below a call and the call for the next page each get
    what is left.  [continuation_token] is the loop variable; the
    generator starts with the empty string. *)
Fixpoint iterate_dirs_from (fuel : nat) (bucket prefix continuation_token : string)
  : M unit :=
  match fuel with
  | O => out_of_fuel
  | S fuel' =>
      response <-
        (if truthy continuation_token then
           call_list_objects_v2
             {| req_Bucket := bucket; req_Prefix := prefix;
                req_Delimiter := Some "/"; req_MaxKeys := None;
                req_StartAfter := None;
                req_ContinuationToken := Some continuation_token |}
         else
           call_list_objects_v2
             {| req_Bucket := bucket; req_Prefix := prefix;
                req_Delimiter := Some "/"; req_MaxKeys := None;
                req_StartAfter := None;
                req_ContinuationToken := None |}) ;;
      (match CommonPrefixes response with
       | Some subdirs =>
           for_each subdirs (fun subdir =>
             yield (Prefix subdir) ;;
             iterate_dirs_from fuel' bucket (Prefix subdir) "")
       | None => ret tt
       end) ;;
      match NextContinuationToken response with
      | Some token => iterate_dirs_from fuel' bucket prefix token
      | None => ret tt
      end
  end.

Definition iterate_dirs (fuel : nat) (bucket prefix : string) : M unit :=
  iterate_dirs_from fuel bucket prefix "".

(** The [for] loop of one turn of [iterate_dirs], lines 131-136: each
    common prefix of the page, then what is below it. *)
Definition descend (fuel : nat) (bucket : string) (response : ListObjectsV2Output)
  : M unit :=
  match CommonPrefixes response with
  | Some subdirs =>
      for_each subdirs (fun subdir =>
        yield (Prefix subdir) ;;
        iterate_dirs_from fuel bucket (Prefix subdir) "")
  | None => ret tt
  end.

(** [iterate_keys], lines 146-174.  [start_after_key] is the loop
    variable; one unit of fuel pays for one turn of the loop. *)
Fixpoint iterate_keys_from (fuel : nat) (bucket prefix start_after_key : string)
  : M unit :=
  match fuel with
  | O => out_of_fuel
  | S fuel' =>
      response <-
        call_list_objects_v2
          {| req_Bucket := bucket; req_Prefix := prefix;
             req_Delimiter := None; req_MaxKeys := Some keys_per_page;
             req_StartAfter := Some start_after_key;
             req_ContinuationToken := None |} ;;
      let keys := default [] (Contents response) in
      let keys := Key <$> keys in
      for_each keys yield ;;
      let page_exist := IsTruncated response in
      if page_exist then
        start_after_key <- lift (last_item keys) ;;
        iterate_keys_from fuel' bucket prefix start_after_key
      else ret tt
  end.

Definition iterate_keys (fuel : nat) (bucket prefix : string) : M unit :=
  iterate_keys_from fuel bucket prefix "".

End Methods.

(** A run lets the failures of the SDK through: when a call to the client
    or the resource failed, the run raised that very exception, and the
    failed call is the last thing the run did. *)
Definition surfaces {E : Env} {A} (r : run A) : Prop :=
  forall ev e,
    ev ∈ trace r -> sdk_failure ev = Some e ->
    result r = Raised e /\ last (trace r) = Some ev.

(** Every listing response of a run of [iterate_dirs] that has no common
    prefix and carries a token is followed at once by the listing call
    for the next page of the same bucket and prefix: the call [next]
    builds from the request and the token.  The run can end there only by
    running out of the bound on its calls. *)
Definition pages_on {E : Env} {A}
    (next : ListObjectsV2Request -> string -> ListObjectsV2Request)
    (r : run A) : Prop :=
  forall t1 q resp t2 token,
    trace r = t1 ++ EvListObjectsV2 q (inr resp) :: t2 ->
    default [] (CommonPrefixes resp) = [] ->
    NextContinuationToken resp = Some token ->
    match t2 with
    | [] => result r = OutOfFuel
    | ev :: _ => exists x, ev = EvListObjectsV2 (next q token) x
    end.

(** The next request as [iterate_dirs] builds it. *)
Definition next_dirs_request (q : ListObjectsV2Request) (token : string)
  : ListObjectsV2Request :=
  dirs_request (req_Bucket q) (req_Prefix q) token.

(** The next request if the token were passed on whatever it is. *)
Definition next_request_with_token (q : ListObjectsV2Request) (token : string)
  : ListObjectsV2Request :=
  {| req_Bucket := req_Bucket q; req_Prefix := req_Prefix q;
     req_Delimiter := Some "/"; req_MaxKeys := None; req_StartAfter := None;
     req_ContinuationToken := Some token |}.

(** ** An in-memory storage service

    [Mock] implements [Env] after the documented behaviour of the service:
    a bucket is a finite map from keys to bodies, a listing walks the keys
    of a bucket in ascending order, rolls the keys that continue past the
    delimiter up into common prefixes, and cuts the result into pages.  A
    [str] is held as the bytes of its UTF-8 form, as the string literals of
    this file are; the SDK encodes a [str] body as UTF-8. *)

Module Mock.

Record state := {
  buckets : gmap string (gmap string bytes);
  local_dirs : gset string;
  local_files : gmap string bytes;
  (* the most entries the service puts on one page *)
  page_limit : nat
}.

(** *** Codecs *)

Definition encode_utf8 (s : string) : bytes := list_byte_of_string s.

Inductive utf8_state : Type :=
| Start          (* at a character boundary *)
| Cont (n : nat) (* n + 1 continuation bytes to come *)
| AfterE0 | AfterED | AfterF0 | AfterF4.

Definition in_range (lo hi b : N) : bool := ((lo <=? b) && (b <=? hi))%N.

Definition utf8_step (s : utf8_state) (b : N) : option utf8_state :=
  match s with
  | Start =>
      if in_range 0 127 b then Some Start
      else if in_range 194 223 b then Some (Cont 0)
      else if (b =? 224)%N then Some AfterE0
      else if (b =? 237)%N then Some AfterED
      else if in_range 225 239 b then Some (Cont 1)
      else if (b =? 240)%N then Some AfterF0
      else if in_range 241 243 b then Some (Cont 2)
      else if (b =? 244)%N then Some AfterF4
      else None
  | Cont O => if in_range 128 191 b then Some Start else None
  | Cont (S n) => if in_range 128 191 b then Some (Cont n) else None
  | AfterE0 => if in_range 160 191 b then Some (Cont 0) else None
  | AfterED => if in_range 128 159 b then Some (Cont 0) else None
  | AfterF0 => if in_range 144 191 b then Some (Cont 1) else None
  | AfterF4 => if in_range 128 143 b then Some (Cont 1) else None
  end.

Fixpoint utf8_valid_from (s : utf8_state) (l : bytes) : bool :=
  match l with
  | [] => match s with Start => true | _ => false end
  | b :: l' =>
      match utf8_step s (Byte.to_N b) with
      | Some s' => utf8_valid_from s' l'
      | None => false
      end
  end.

Definition decode (content : bytes) (encoding : string) : exn + string :=
  if bool_decide (encoding = "utf-8") || bool_decide (encoding = "utf8") then
    if utf8_valid_from Start content then inr (string_of_list_byte content)
    else inl UnicodeDecodeError
  else if bool_decide (encoding = "ascii") then
    if forallb (fun b => (Byte.to_N b <? 128)%N) content
    then inr (string_of_list_byte content)
    else inl UnicodeDecodeError
  else inl LookupError.

(** *** Objects *)

Definition with_buckets (st : state) (bs : gmap string (gmap string bytes)) : state :=
  {| buckets := bs; local_dirs := local_dirs st;
     local_files := local_files st; page_limit := page_limit st |}.

Definition get (bucket key : string) (st : state) : (exn + bytes) * state :=
  match buckets st !! bucket with
  | None => (inl (ClientError "NoSuchBucket"), st)
  | Some m =>
      match m !! key with
      | None => (inl (ClientError "NoSuchKey"), st)
      | Some body => (inr body, st)
      end
  end.

Definition put_bytes (bucket key : string) (body : bytes) (st : state)
  : (exn + unit) * state :=
  match buckets st !! bucket with
  | None => (inl (ClientError "NoSuchBucket"), st)
  | Some m => (inr tt, with_buckets st (<[bucket := <[key := body]> m]> (buckets st)))
  end.

Definition put (bucket key body : string) (st : state) : (exn + unit) * state :=
  put_bytes bucket key (encode_utf8 body) st.

(** [s] cut at its first "/": the part before it and the part after. *)
Fixpoint split_sep (s : string) : option (string * string) :=
  match s with
  | EmptyString => None
  | String c s' =>
      if Ascii.eqb c sep then Some (EmptyString, s')
      else '(a, b) ← split_sep s'; Some (String c a, b)
  end.

(** A copy source is [{bucket}/{key}]; one leading "/" is allowed. *)
Definition parse_copy_source (src : string) : option (string * string) :=
  match src with
  | String c s' => if Ascii.eqb c sep then split_sep s' else split_sep src
  | EmptyString => None
  end.

Definition delete (bucket key : string) (st : state) : (exn + unit) * state :=
  match buckets st !! bucket with
  | None => (inl (ClientError "NoSuchBucket"), st)
  | Some m => (inr tt, with_buckets st (<[bucket := base.delete key m]> (buckets st)))
  end.

Definition head_object (bucket key : string) (st : state)
  : (exn + HeadObjectOutput) * state :=
  match get bucket key st with
  | (inl _, st') => (inl (ClientError "404"), st')
  | (inr body, st') => (inr {| ContentLength := Z.of_nat (length body) |}, st')
  end.

Definition list_buckets (st : state) : (exn + ListBucketsOutput) * state :=
  (inr {| Buckets := (fun b => {| Name := b |}) <$>
                       merge_sort String.le (elements (dom (buckets st))) |}, st).

(** *** The local file system

    One user's files and directories, held under their paths as they are
    written.  A path stands for itself only when it is in normal form
    ([normal]): no empty component (no doubled or trailing "/"), no "."
    and no "..". *)

(** A name of a file or of a directory. *)
Definition plain_name (s : string) : bool :=
  truthy s && negb (contains_sep s)
  && negb (bool_decide (s = ".")) && negb (bool_decide (s = "..")).

(** The components of [path], the parts between its separators; [acc] is
    the component being read. *)
Fixpoint components_from (acc path : string) : list string :=
  match path with
  | EmptyString => [acc]
  | String c path' =>
      if Ascii.eqb c sep then acc :: components_from "" path'
      else components_from (acc ++ String c EmptyString) path'
  end.

(** A relative path of plain names, or "/" and such a path. *)
Definition normal (path : string) : bool :=
  match components_from "" path with
  | EmptyString :: (_ :: _) as names => forallb plain_name names
  | names => forallb plain_name names
  end.

Definition exists_ (path : string) (st : state) : bool :=
  negb (bool_decide (path = "")) &&
  (bool_decide (path ∈ local_dirs st) || bool_decide (path ∈ dom (local_files st))).

(** The directories above [path]: what [acc] holds at each "/" of [path]. *)
Fixpoint parents_from (acc path : string) : list string :=
  match path with
  | EmptyString => []
  | String c path' =>
      (if Ascii.eqb c sep && truthy acc then [acc] else [])
        ++ parents_from (acc ++ String c EmptyString) path'
  end.

(** A directory above [path] is a regular file. *)
Definition under_file (path : string) (st : state) : bool :=
  existsb (fun p => bool_decide (p ∈ dom (local_files st))) (parents_from "" path).

(** [os.makedirs(path)]: the directories above [path] that are missing
    are made, then [path]; nothing can be made below a regular file. *)
Definition makedirs (path : string) (st : state) : (exn + unit) * state :=
  if bool_decide (path = "") then (inl (FileNotFoundError ""), st)
  else if exists_ path st then (inl (FileExistsError path), st)
  else if under_file path st then (inl NotADirectoryError, st)
  else (inr tt,
        {| buckets := buckets st;
           local_dirs := local_dirs st ∪ list_to_set (path :: parents_from "" path);
           local_files := local_files st; page_limit := page_limit st |}).

(** The client asks for the object first, writes its bytes to a new file
    beside [filename] and renames that file to [filename]: the directory
    of [filename] has to be a directory (the working directory when it is
    empty), and [filename] must not be one. *)
Definition download_file (bucket key filename : string) (st : state)
  : (exn + unit) * state :=
  match get bucket key st with
  | (inl _, st') => (inl (ClientError "404"), st')
  | (inr body, st') =>
      let dir := dirname filename in
      if bool_decide (filename = "") then (inl (FileNotFoundError filename), st')
      else if bool_decide (dir = "") || bool_decide (dir ∈ local_dirs st') then
        if bool_decide (filename ∈ local_dirs st') then (inl IsADirectoryError, st')
        else
          (inr tt,
           {| buckets := buckets st'; local_dirs := local_dirs st';
              local_files := <[filename := body]> (local_files st');
              page_limit := page_limit st' |})
      else if bool_decide (dir ∈ dom (local_files st')) || under_file dir st' then
        (inl NotADirectoryError, st')
      else (inl (FileNotFoundError filename), st')
  end.

Definition upload_file (bucket filename key : string) (st : state)
  : (exn + unit) * state :=
  match local_files st !! filename with
  | None => (inl (FileNotFoundError filename), st)
  | Some body => put_bytes bucket key body st
  end.

(** *** Listings *)

Inductive entry : Type :=
| KeyEntry (key : string)
| PrefixEntry (prefix : string).

Global Instance entry_eq_dec : EqDecision entry.
Proof. solve_decision. Defined.

(** [Some r] when [s] is [p ++ r]. *)
Fixpoint strip_prefix (p s : string) : option string :=
  match p, s with
  | EmptyString, _ => Some s
  | String a p', String b s' => if Ascii.eqb a b then strip_prefix p' s' else None
  | String _ _, EmptyString => None
  end.

(** The part of [r] up to its first "/", the "/" included. *)
Fixpoint upto_sep (r : string) : option string :=
  match r with
  | EmptyString => None
  | String c r' =>
      if Ascii.eqb c sep then Some (String c EmptyString)
      else String c <$> upto_sep r'
  end.

Definition classify (prefix : string) (delimited : bool) (key : string)
  : option entry :=
  r ← strip_prefix prefix key;
  if delimited then
    match upto_sep r with
    | Some seg => Some (PrefixEntry (prefix ++ seg))
    | None => Some (KeyEntry key)
    end
  else Some (KeyEntry key).

Definition after (start_after : option string) (key : string) : bool :=
  match start_after with
  | Some s => String.ltb s key
  | None => true
  end.

(** The keys of a bucket in the order the service lists them. *)
Definition sorted_keys (m : gmap string bytes) : list string :=
  merge_sort String.le (elements (dom m)).

Definition entries (prefix : string) (delimited : bool)
    (start_after : option string) (keys : list string) : list entry :=
  remove_dups
    (omap (classify prefix delimited)
          (filter (fun k => Is_true (after start_after k)) keys)).

Definition token_of (offset : nat) : string :=
  NilEmpty.string_of_uint (Nat.to_uint offset).

Definition offset_of (token : string) : option nat :=
  Nat.of_uint <$> NilEmpty.uint_of_string token.

Definition entry_key (m : gmap string bytes) (e : entry) : option S3Object :=
  match e with
  | KeyEntry k =>
      Some {| Key := k; Size := Z.of_nat (length (default [] (m !! k))) |}
  | PrefixEntry _ => None
  end.

Definition entry_prefix (e : entry) : option CommonPrefix :=
  match e with
  | PrefixEntry p => Some {| Prefix := p |}
  | KeyEntry _ => None
  end.

(** A key of the response dict is there only when its list is not
    empty. *)
Definition present {A} (l : list A) : option (list A) :=
  match l with
  | [] => None
  | _ => Some l
  end.

Definition page_size (max_keys : option Z) (st : state) : nat :=
  Nat.min (Z.to_nat (default 1000%Z max_keys)) (page_limit st).

Definition page_of (m : gmap string bytes) (size offset : nat) (all : list entry)
  : ListObjectsV2Output :=
  let rest := drop offset all in
  let page := take size rest in
  let more := bool_decide (size < length rest) in
  {| Contents := present (omap (entry_key m) page);
     CommonPrefixes := present (omap entry_prefix page);
     IsTruncated := more;
     NextContinuationToken := if more then Some (token_of (offset + size)) else None |}.

Definition list_objects_v2 (req : ListObjectsV2Request) (st : state)
  : (exn + ListObjectsV2Output) * state :=
  match buckets st !! req_Bucket req with
  | None => (inl (ClientError "NoSuchBucket"), st)
  | Some m =>
      let delimited :=
        match req_Delimiter req with
        | None => Some false
        | Some d => if bool_decide (d = "/") then Some true else None
        end in
      let start :=
        match req_ContinuationToken req with
        | None => Some (O, req_StartAfter req)
        | Some t => (fun o => (o, None)) <$> offset_of t
        end in
      match delimited, start with
      | Some delimited, Some (offset, start_after) =>
          (inr (page_of m (page_size (req_MaxKeys req) st) offset
                  (entries (req_Prefix req) delimited start_after (sorted_keys m))),
           st)
      | _, _ => (inl (ClientError "InvalidArgument"), st)
      end
  end.

(** *** Copies

    A copy source given as a string is [{bucket}/{key}], or that and
    [?versionId={id}]: the SDK takes the end of the string for a version id
    when it matches the pattern [\?versionId=[^\s]+$], at the leftmost
    place where it does. *)

(** White space ([\s] on a [str]) begins [s]: the characters U+0009 to
    U+000D, U+001C to U+0020, U+0085, U+00A0, U+1680, U+2000 to U+200A,
    U+2028, U+2029, U+202F, U+205F and U+3000, in UTF-8. *)
Definition space_ahead (s : string) : bool :=
  match s with
  | String a s1 =>
      let a := N_of_ascii a in
      in_range 9 13 a || in_range 28 32 a
      || match s1 with
         | String b s2 =>
             let b := N_of_ascii b in
             ((a =? 194) && ((b =? 133) || (b =? 160)))%N
             || match s2 with
                | String c _ =>
                    let c := N_of_ascii c in
                    ((a =? 225) && (b =? 154) && (c =? 128))%N
                    || ((a =? 226) && (b =? 128)
                        && (in_range 128 138 c || in_range 168 169 c || (c =? 175)))%N
                    || ((a =? 226) && (b =? 129) && (c =? 159))%N
                    || ((a =? 227) && (b =? 128) && (c =? 128))%N
                | EmptyString => false
                end
         | EmptyString => false
         end
  | EmptyString => false
  end.

Fixpoint has_space (s : string) : bool :=
  match s with
  | EmptyString => false
  | String _ s' => space_ahead s || has_space s'
  end.

(** [s] without the newline that ends it. *)
Fixpoint chomp (s : string) : option string :=
  match s with
  | EmptyString => None
  | String c s' =>
      match s' with
      | EmptyString => if (N_of_ascii c =? 10)%N then Some EmptyString else None
      | String _ _ => String c <$> chomp s'
      end
  end.

(** [[^\s]+$] matches the whole of [s]; [$] is the end of the string or
    the place before a newline that ends it. *)
Definition version_tail (s : string) : bool :=
  (truthy s && negb (has_space s))
  || match chomp s with
     | Some s' => truthy s' && negb (has_space s')
     | None => false
     end.

(** The copy source before the version id, and what follows
    [?versionId=]. *)
Fixpoint split_version (s : string) : string * option string :=
  let here :=
    match strip_prefix "?versionId=" s with
    | Some v => version_tail v
    | None => false
    end in
  if here then (EmptyString, strip_prefix "?versionId=" s)
  else
    match s with
    | EmptyString => (EmptyString, None)
    | String c s' => let '(a, v) := split_version s' in (String c a, v)
    end.

(** The service keeps no versions: the one version of an object is
    [null]. *)
Definition get_version (bucket key : string) (version : option string) (st : state)
  : (exn + bytes) * state :=
  match version with
  | None => get bucket key st
  | Some v =>
      match buckets st !! bucket with
      | None => (inl (ClientError "NoSuchBucket"), st)
      | Some m =>
          match (if bool_decide (v = "null") then m !! key else None) with
          | Some body => (inr body, st)
          | None => (inl (ClientError "NoSuchVersion"), st)
          end
      end
  end.

(** A copy of an object onto itself that changes nothing of it is
    refused. *)
Definition copy_from (bucket key copy_source : string) (st : state)
  : (exn + unit) * state :=
  let '(source, version) := split_version copy_source in
  match parse_copy_source source with
  | None => (inl (ClientError "InvalidArgument"), st)
  | Some (src_bucket, src_key) =>
      match get_version src_bucket src_key version st with
      | (inl e, st') => (inl e, st')
      | (inr body, st') =>
          if bool_decide (src_bucket = bucket /\ src_key = key)
          then (inl (ClientError "InvalidRequest"), st')
          else put_bytes bucket key body st'
      end
  end.

Global Instance env : Env := {|
  world := state;
  object_get := get;
  object_put := put;
  object_copy_from := copy_from;
  object_delete := delete;
  bucket_upload_file := upload_file;
  client_download_file := download_file;
  client_head_object := head_object;
  client_list_buckets := list_buckets;
  client_list_objects_v2 := list_objects_v2;
  os_path_exists := exists_;
  os_makedirs := makedirs;
  bytes_decode := decode
|}.

(** A service holding one bucket. *)
Definition one_bucket (bucket : string) (objects : list (string * bytes))
    (limit : nat) : state :=
  {| buckets := {[ bucket := list_to_map objects ]};
     local_dirs := ∅; local_files := ∅; page_limit := limit |}.

End Mock.

(** ** A client that answers from a script

    [Scripted] is the test double of the listing calls: the state of the
    world is the list of the answers still to be given, each listing call
    takes the next one, and a call past the end of the script finds the
    network down. *)

Module Scripted.

Definition script := list (exn + ListObjectsV2Output).

Definition next_answer (req : ListObjectsV2Request) (s : script)
  : (exn + ListObjectsV2Output) * script :=
  match s with
  | [] => (inl EndpointConnectionError, [])
  | r :: s' => (r, s')
  end.

Definition unavailable {A} (s : script) : (exn + A) * script :=
  (inl EndpointConnectionError, s).

Global Instance env : Env := {|
  world := script;
  object_get := fun _ _ => unavailable;
  object_put := fun _ _ _ => unavailable;
  object_copy_from := fun _ _ _ => unavailable;
  object_delete := fun _ _ => unavailable;
  bucket_upload_file := fun _ _ _ => unavailable;
  client_download_file := fun _ _ _ => unavailable;
  client_head_object := fun _ _ => unavailable;
  client_list_buckets := unavailable;
  client_list_objects_v2 := next_answer;
  os_path_exists := fun _ _ => false;
  os_makedirs := fun p s => (inl (PermissionError p), s);
  bytes_decode := fun _ _ => inl LookupError
|}.

(** A page of keys. *)
Definition keys_page (keys : list string) (truncated : bool) : ListObjectsV2Output :=
  {| Contents := Some ((fun k => {| Key := k; Size := 0 |}) <$> keys);
     CommonPrefixes := None;
     IsTruncated := truncated;
     NextContinuationToken := None |}.

(** A page of a delimited listing. *)
Definition dirs_page (prefixes : option (list string)) (token : option string)
  : ListObjectsV2Output :=
  {| Contents := None;
     CommonPrefixes := fmap (M := list) (fun p => {| Prefix := p |}) <$> prefixes;
     IsTruncated := bool_decide (is_Some token);
     NextContinuationToken := token |}.

End Scripted.

(** ** Example inputs *)

Module Examples.

Definition body (s : string) : bytes := list_byte_of_string s.

(** 10,001 keys of two characters, and a service that gives pages of
    10000. *)
Definition key_of (i : nat) : string :=
  String (Ascii.ascii_of_nat (65 + i / 100))
    (String (Ascii.ascii_of_nat (33 + i mod 100)) "").

Definition many_objects : gmap string bytes :=
  list_to_map ((fun i => (key_of i, [])) <$> seq 0 (Z.to_nat 10001)).

Definition many_keys_world : Mock.state :=
  {| Mock.buckets := {[ "bk" := many_objects ]};
     Mock.local_dirs := ∅; Mock.local_files := ∅;
     Mock.page_limit := Z.to_nat 10000 |}.

(** A small tree, listed two entries to the page. *)
Definition tree_objects : gmap string bytes :=
  list_to_map [("a/b/c/d", []); ("a/c", []); ("d", []); ("x/y/z", []); ("x/w/", [])].

Definition tree_world : Mock.state :=
  {| Mock.buckets := {[ "bk" := tree_objects ]};
     Mock.local_dirs := ∅; Mock.local_files := ∅; Mock.page_limit := 2 |}.

(** A machine on which [/tmp] exists. *)
Definition tmp_world : Mock.state :=
  {| Mock.buckets := {[ "bk" := {[ "k" := body "data" ]} ]};
     Mock.local_dirs := {[ "/tmp" ]}; Mock.local_files := ∅;
     Mock.page_limit := 1000 |}.

(** Scripts of listing answers. *)
Definition two_pages : Scripted.script :=
  [inr (Scripted.keys_page ["a"; "b"] true); inr (Scripted.keys_page ["c"] false)].

Definition empty_truncated_page : Scripted.script :=
  [inr (Scripted.keys_page ["a"] true); inr (Scripted.keys_page [] true);
   inr (Scripted.keys_page ["z"] false)].

Definition token_pages : Scripted.script :=
  [inr (Scripted.dirs_page None (Some "t1")); inr (Scripted.dirs_page (Some []) None)].

(** A key that starts with the separator, and another bucket that has
    the name of the key's first segment. *)
Definition slash_key_world : Mock.state :=
  {| Mock.buckets :=
       {[ "logs" := {[ "/2024/app.log" := body "right" ]};
          "2024" := {[ "app.log" := body "wrong" ]};
          "backup" := ∅ ]};
     Mock.local_dirs := ∅; Mock.local_files := ∅; Mock.page_limit := 1000 |}.

End Examples.

(** ** The keys of a listing

    The keys of [keys] that go on from [prefix]; those of them after the
    cursor [s]. *)

Definition keys_under (prefix : string) (keys : list string) : list string :=
  filter (fun k => is_Some (Mock.strip_prefix prefix k)) keys.

Definition keys_after (prefix s : string) (keys : list string) : list string :=
  keys_under prefix (filter (fun k => Is_true (String.ltb s k)) keys).

(** Keys in strictly ascending order, the order of a listing. *)
Definition ascending (l : list string) : Prop :=
  StronglySorted (fun a b => Is_true (String.ltb a b)) l.

(** The number of pages of [n] entries that [len] entries take; an empty
    listing is one empty page. *)
Definition page_count (len n : nat) : nat := S ((len - 1) / n).

(** ** The directory tree of a keyspace

    What the listing of directories is measured against: the virtual
    directories of a set of keys, and their depth-first pre-order. *)

(** The common prefixes among the entries of a listing. *)
Definition dirs_of (l : list Mock.entry) : list string :=
  omap (fun e => Prefix <$> Mock.entry_prefix e) l.

Section Tree.

Variable keys : list string.

(** [d] is a directory below [prefix]: it goes on from [prefix], ends in
    the delimiter, and some key goes on from it. *)
Definition dir_under (prefix d : string) : Prop :=
  exists k s r : string, k ∈ keys /\ d = (prefix ++ s ++ "/")%string /\ k = (d ++ r)%string.

(** The directories one level below [prefix], in listing order. *)
Definition children (prefix : string) : list string :=
  dirs_of (Mock.entries prefix true None keys).

(** Depth-first, pre-order: a directory, then all that is below it, then
    its next sibling. *)
Fixpoint walk (depth : nat) (prefix : string) : list string :=
  match depth with
  | O => []
  | S depth' => flat_map (fun d => d :: walk depth' d) (children prefix)
  end.

(** No directory is nested deeper than the longest key is long. *)
Definition height : nat := max_list (String.length <$> keys).

(** [d] itself or a directory below it. *)
Definition at_or_under (d e : string) : Prop := e = d \/ dir_under d e.

(** A sequence of directories is in pre-order when each directory [d] of
    it is followed at once by all that is below [d], and nothing below
    [d] comes before [d] or after that block. *)
Definition pre_order (ys : list string) : Prop :=
  forall d, d ∈ ys ->
    exists before after,
      ys = before ++ d :: walk height d ++ after
      /\ forall e, e ∈ before ++ after -> ~ dir_under d e.

End Tree.

(** ** What a run received and what it did next *)

(** The keys on the pages a run received, page after page. *)
Definition keys_received
    (calls : list (ListObjectsV2Request * (exn + ListObjectsV2Output))) : list string :=
  flat_map (fun c => match c.2 with
                     | inr resp => Key <$> default [] (Contents resp)
                     | inl _ => []
                     end) calls.

(** The common prefixes on the pages a run received. *)
Definition prefixes_received
    (calls : list (ListObjectsV2Request * (exn + ListObjectsV2Output))) : list string :=
  flat_map (fun c => match c.2 with
                     | inr resp => Prefix <$> default [] (CommonPrefixes resp)
                     | inl _ => []
                     end) calls.

(** Every directory a run yields is listed at once: the next thing the
    run does is the first listing call of that directory, in [bucket],
    with the delimiter and without a token.  The run can end at a yield
    only by running out of the bound on its calls. *)
Definition descends {E : Env} {A} (bucket : string) (r : run A) : Prop :=
  forall t1 d t2,
    trace r = t1 ++ Yield d :: t2 ->
    match t2 with
    | [] => result r = OutOfFuel
    | ev :: _ => exists x, ev = EvListObjectsV2 (dirs_request bucket d "") x
    end.

(** Further example inputs. *)
Module MoreExamples.

(** A machine with one local file and no directory [out]. *)
Definition file_world : Mock.state :=
  {| Mock.buckets :=
       {[ "bk" := {[ "docs/a.txt" := Examples.body "alpha";
                     "docs/b.txt" := Examples.body "beta";
                     "img/c.png" := [Byte.xff; Byte.xd8] ]};
          "other" := ∅ ]};
     Mock.local_dirs := {[ "/tmp" ]};
     Mock.local_files := {[ "/tmp/in.bin" := [Byte.xff; Byte.x00; Byte.x41] ]};
     Mock.page_limit := 2 |}.

Definition file_world_objects : gmap string bytes :=
  {[ "docs/a.txt" := Examples.body "alpha";
     "docs/b.txt" := Examples.body "beta";
     "img/c.png" := [Byte.xff; Byte.xd8] ]}.

(** Two pages of directories, the second after a token. *)
Definition dirs_script : Scripted.script :=
  [inr (Scripted.dirs_page (Some ["a/"; "b/"]) None);
   inr (Scripted.dirs_page None None);
   inr (Scripted.dirs_page (Some ["b/c/"]) None);
   inr (Scripted.dirs_page (Some []) None)].

End MoreExamples.

(** * Properties *)

(** ** The path functions and the service on small inputs *)

Example dirname_file_in_dir : dirname "/tmp/data/file.txt" = "/tmp/data".
Proof. reflexivity. Qed.

Example dirname_bare_name : dirname "file.txt" = "".
Proof. reflexivity. Qed.

Example dirname_root : dirname "/file.txt" = "/".
Proof. reflexivity. Qed.

Example dirname_trailing_seps : dirname "a//b" = "a".
Proof. reflexivity. Qed.

Example join_plain : join "bucket" "dir/key" = "bucket/dir/key".
Proof. reflexivity. Qed.

Example join_absolute : join "bucket" "/dir/key" = "/dir/key".
Proof. reflexivity. Qed.

Example token_round : Mock.offset_of (Mock.token_of 1000) = Some 1000.
Proof. reflexivity. Qed.

Example listing_rolls_up :
  Mock.entries "" true None ["a/b"; "a/c"; "d"]
  = [Mock.PrefixEntry "a/"; Mock.KeyEntry "d"].
Proof. reflexivity. Qed.

Example tree_world_keys :
  yields (trace (iterate_keys (E := Mock.env) 3 "bk" "" Examples.tree_world))
  = ["a/b/c/d"; "a/c"; "d"; "x/w/"; "x/y/z"].
Proof. vm_compute. reflexivity. Qed.

Example tree_world_dirs :
  yields (trace (iterate_dirs (E := Mock.env) 4 "bk" "" Examples.tree_world))
  = ["a/"; "a/b/"; "a/b/c/"; "x/"; "x/w/"; "x/y/"].
Proof. vm_compute. reflexivity. Qed.

Example tree_world_out_of_fuel :
  result (iterate_dirs (E := Mock.env) 3 "bk" "" Examples.tree_world) = OutOfFuel.
Proof. vm_compute. reflexivity. Qed.

(** ** Runs *)

Section Runs.

Context {E : Env}.

Lemma bind_returned {A B} (m : M A) (k : A -> M B) w t a w1 :
  m w = Run t (Returned a) w1 ->
  bind m k w =
    Run (t ++ trace (k a w1)) (result (k a w1)) (final (k a w1)).
Proof. intros Hm. unfold bind. by rewrite Hm. Qed.

Lemma bind_raised {A B} (m : M A) (k : A -> M B) w t e w1 :
  m w = Run t (Raised e) w1 -> bind m k w = Run t (Raised e) w1.
Proof. intros Hm. unfold bind. by rewrite Hm. Qed.

Lemma bind_out_of_fuel {A B} (m : M A) (k : A -> M B) w t w1 :
  m w = Run t OutOfFuel w1 -> bind m k w = Run t OutOfFuel w1.
Proof. intros Hm. unfold bind. by rewrite Hm. Qed.

Lemma for_each_yield (l : list string) (w : world) :
  for_each l yield w = Run (Yield <$> l) (Returned tt) w.
Proof.
  induction l as [|x l IH]; [done|].
  cbn [for_each]. erewrite bind_returned; [|done]. by rewrite IH.
Qed.

Lemma yields_app (t1 t2 : list event) : yields (t1 ++ t2) = yields t1 ++ yields t2.
Proof. apply omap_app. Qed.

Lemma yields_Yield (l : list string) : yields (Yield <$> l) = l.
Proof. induction l as [|x l IH]; [done|]. unfold yields in *. cbn. by f_equal. Qed.

Lemma listing_calls_app (t1 t2 : list event) :
  listing_calls (t1 ++ t2) = listing_calls t1 ++ listing_calls t2.
Proof. apply omap_app. Qed.

Lemma listing_calls_Yield (l : list string) : listing_calls (Yield <$> l) = [].
Proof. induction l as [|x l IH]; [done|]. by cbn. Qed.

(** One turn of the loop of [iterate_keys]. *)
Lemma iterate_keys_from_S (fuel : nat) (b p s : string) (w : world) :
  iterate_keys_from (S fuel) b p s w =
    match client_list_objects_v2 (keys_request b p s) w with
    | (inl e, w1) => Run [EvListObjectsV2 (keys_request b p s) (inl e)] (Raised e) w1
    | (inr resp, w1) =>
        let keys := Key <$> default [] (Contents resp) in
        let call := EvListObjectsV2 (keys_request b p s) (inr resp) in
        if IsTruncated resp then
          match last keys with
          | None => Run (call :: (Yield <$> keys)) (Raised IndexError) w1
          | Some k =>
              let r := iterate_keys_from fuel b p k w1 in
              Run (call :: (Yield <$> keys) ++ trace r) (result r) (final r)
          end
        else Run (call :: (Yield <$> keys)) (Returned tt) w1
    end.
Proof.
  cbn [iterate_keys_from]. fold (keys_request b p s).
  unfold call_list_objects_v2.
  destruct (client_list_objects_v2 (keys_request b p s) w) as [[e|resp] w1] eqn:Hcall.
  { erewrite bind_raised; [done|]. unfold perform. by rewrite Hcall. }
  erewrite bind_returned; [|unfold perform; by rewrite Hcall].
  erewrite bind_returned; [|apply for_each_yield].
  cbn [trace result final app].
  destruct (IsTruncated resp); [|by rewrite app_nil_r].
  unfold last_item.
  destruct (last (Key <$> default [] (Contents resp))) as [k|].
  - erewrite bind_returned; [|reflexivity]. done.
  - erewrite bind_raised; [|reflexivity]. by rewrite app_nil_r.
Qed.

Lemma listing_calls_turn q x (l : list string) (t : list event) :
  listing_calls (EvListObjectsV2 q x :: (Yield <$> l) ++ t) = (q, x) :: listing_calls t.
Proof.
  change (listing_calls ([EvListObjectsV2 q x] ++ (Yield <$> l) ++ t)
          = (q, x) :: listing_calls t).
  by rewrite !listing_calls_app, listing_calls_Yield.
Qed.

Lemma listing_calls_last_turn q x (l : list string) :
  listing_calls (EvListObjectsV2 q x :: (Yield <$> l)) = [(q, x)].
Proof.
  rewrite <-(app_nil_r (Yield <$> l)). by rewrite listing_calls_turn.
Qed.

Lemma last_None_nil {A} (l : list A) : last l = None -> l = [].
Proof. by intros ?%last_None. Qed.

End Runs.

(** ** Key iteration against any client *)

Section Keys.

Context {E : Env}.

(** With fuel left, a turn of the loop starts with its listing call. *)
Lemma keys_first_call (fuel : nat) (b p s : string) (w : world) :
  listing_calls (trace (iterate_keys_from (S fuel) b p s w)) !! 0 =
    Some (keys_request b p s, (client_list_objects_v2 (keys_request b p s) w).1).
Proof.
  rewrite iterate_keys_from_S.
  destruct (client_list_objects_v2 (keys_request b p s) w) as [[e|resp] w1]; [done|].
  cbn zeta.
  destruct (IsTruncated resp);
    [destruct (last _)|]; cbn [trace];
    by rewrite ?listing_calls_turn, ?listing_calls_last_turn.
Qed.

Lemma keys_stop_from (fuel : nat) (b p s : string) (w : world) :
  let r := iterate_keys_from fuel b p s w in
  let calls := listing_calls (trace r) in
  (forall i q resp,
      calls !! i = Some (q, inr resp) -> IsTruncated resp = false ->
      length calls = S i /\ result r = Returned tt)
  /\ (forall i q resp,
      calls !! i = Some (q, inr resp) -> IsTruncated resp = true ->
      default [] (Contents resp) <> [] -> S i < fuel ->
      S i < length calls)
  /\ (result r = Returned tt ->
      exists q resp, last calls = Some (q, inr resp) /\ IsTruncated resp = false).
Proof.
  revert s w. induction fuel as [|fuel IH]; intros s w; cbn zeta.
  { cbn. split_and!; [by intros [] | by intros [] | done]. }
  rewrite iterate_keys_from_S.
  destruct (client_list_objects_v2 (keys_request b p s) w) as [[e|resp] w1].
  { cbn. split_and!; [by intros [|?] | by intros [|?] | done]. }
  cbn zeta. destruct (IsTruncated resp) eqn:Htr.
  - destruct (last (Key <$> default [] (Contents resp))) as [k|] eqn:Hlast.
    + specialize (IH k w1). cbn zeta in IH. destruct IH as (IH1 & IH2 & IH3).
      cbn [trace result final]. rewrite listing_calls_turn. split_and!.
      * intros [|i] q r Hi Hr; simplify_eq/=; [congruence|].
        destruct (IH1 _ _ _ Hi Hr) as [-> ?]. done.
      * intros [|i] q r Hi Hr Hne Hlt; simplify_eq/=.
        { destruct fuel as [|fuel]; [lia|].
          pose proof (keys_first_call fuel b p k w1) as H0.
          apply lookup_lt_Some in H0. lia. }
        specialize (IH2 _ _ _ Hi Hr Hne). lia.
      * intros Hret. destruct (IH3 Hret) as (q & r & Hl & Hr).
        exists q, r. split; [|done].
        destruct (listing_calls (trace (iterate_keys_from fuel b p k w1)));
          [done|]. by rewrite last_cons, Hl.
    + apply last_None_nil, fmap_nil_inv in Hlast.
      cbn [trace result final]. rewrite listing_calls_last_turn. split_and!.
      * intros [|i] q r Hi Hr; simplify_eq/=; congruence.
      * intros [|i] q r Hi Hr Hne Hlt; by simplify_eq/=.
      * done.
  - cbn [trace result final]. rewrite listing_calls_last_turn. split_and!.
    + intros [|i] q r Hi Hr; by simplify_eq/=.
    + intros [|i] q r Hi Hr; simplify_eq/=; congruence.
    + intros _. by exists (keys_request b p s), resp.
Qed.

Lemma keys_index_error_from (fuel : nat) (b p s : string) (w : world) :
  let r := iterate_keys_from fuel b p s w in
  let calls := listing_calls (trace r) in
  (forall i q resp,
      calls !! i = Some (q, inr resp) -> IsTruncated resp = true ->
      default [] (Contents resp) = [] ->
      length calls = S i /\ result r = Raised IndexError)
  /\ ((forall q resp,
         (q, inr resp) ∈ calls -> IsTruncated resp = true ->
         default [] (Contents resp) <> []) ->
      forall e, result r = Raised e -> exists q, last calls = Some (q, inl e)).
Proof.
  revert s w. induction fuel as [|fuel IH]; intros s w; cbn zeta.
  { cbn. split; [by intros [] | done]. }
  rewrite iterate_keys_from_S.
  destruct (client_list_objects_v2 (keys_request b p s) w) as [[e|resp] w1].
  { cbn. split; [by intros [|?] |].
    intros _ e' [= <-]. by exists (keys_request b p s). }
  cbn zeta. destruct (IsTruncated resp) eqn:Htr.
  - destruct (last (Key <$> default [] (Contents resp))) as [k|] eqn:Hlast.
    + specialize (IH k w1). cbn zeta in IH. destruct IH as (IH1 & IH2).
      cbn [trace result final]. rewrite listing_calls_turn. split.
      * intros [|i] q r Hi Hr Hnil; simplify_eq/=.
        { by rewrite Hnil in Hlast. }
        destruct (IH1 _ _ _ Hi Hr Hnil) as [-> ?]. done.
      * intros Hpre e He. destruct (IH2 (fun q r Hin => Hpre q r (list_elem_of_further _ _ _ Hin)) e He) as (q & Hl).
        exists q.
        destruct (listing_calls (trace (iterate_keys_from fuel b p k w1)));
          [done|]. by rewrite last_cons, Hl.
    + apply last_None_nil, fmap_nil_inv in Hlast.
      cbn [trace result final]. rewrite listing_calls_last_turn. split.
      * intros [|i] q r Hi Hr Hnil; by simplify_eq/=.
      * intros Hpre. destruct (Hpre (keys_request b p s) resp); try done.
        by apply list_elem_of_here.
  - cbn [trace result final]. rewrite listing_calls_last_turn. split.
    + intros [|i] q r Hi Hr; simplify_eq/=; congruence.
    + done.
Qed.

(** The stopping rule of [iterate_keys] where [keys[-1]] is defined.  A
    response with [IsTruncated] false, whatever the number of keys on it,
    is the last listing call of the run and the generator is exhausted
    normally after it; a truncated response with keys on it is followed
    by another listing call while the bound on the number of turns allows
    one; and the generator is exhausted only after a response with
    [IsTruncated] false.  A truncated response without keys is left out
    here: see [iterate_keys_stops_while_truncated]. *)
Theorem iterate_keys_stops_iff_not_truncated
    (fuel : nat) (bucket prefix : string) (w : world) :
  let r := iterate_keys fuel bucket prefix w in
  let calls := listing_calls (trace r) in
  (forall i q resp,
      calls !! i = Some (q, inr resp) -> IsTruncated resp = false ->
      length calls = S i /\ result r = Returned tt)
  /\ (forall i q resp,
      calls !! i = Some (q, inr resp) -> IsTruncated resp = true ->
      default [] (Contents resp) <> [] -> S i < fuel ->
      S i < length calls)
  /\ (result r = Returned tt ->
      exists q resp, last calls = Some (q, inr resp) /\ IsTruncated resp = false).
Proof. apply keys_stop_from. Qed.

(** C9: a truncated page without keys makes [iterate_keys] fail with
    [IndexError] at that page: no listing call follows it and the
    generator is not exhausted normally.  When every truncated response
    of the run has a key, [keys[-1]] is defined at every turn: an
    exception of the run can only be the exception of its last listing
    call. *)
Theorem iterate_keys_truncated_empty_page
    (fuel : nat) (bucket prefix : string) (w : world) :
  let r := iterate_keys fuel bucket prefix w in
  let calls := listing_calls (trace r) in
  (forall i q resp,
      calls !! i = Some (q, inr resp) -> IsTruncated resp = true ->
      default [] (Contents resp) = [] ->
      length calls = S i /\ result r = Raised IndexError)
  /\ ((forall q resp,
         (q, inr resp) ∈ calls -> IsTruncated resp = true ->
         default [] (Contents resp) <> []) ->
      forall e, result r = Raised e -> exists q, last calls = Some (q, inl e)).
Proof. apply keys_index_error_from. Qed.

End Keys.

(** C2 at a response that is truncated and has no keys: [iterate_keys]
    stops asking for pages although the response says there are more.
    The client has a third page to give; the run never asks for it: at
    the second answer, whose [IsTruncated] is true, [keys[-1]] raises
    [IndexError], after the key of the first page and nothing else was
    yielded. *)
Theorem iterate_keys_stops_while_truncated :
  let r := iterate_keys (E := Scripted.env) 5 "bk" "" Examples.empty_truncated_page in
  listing_calls (trace r)
  = [(keys_request "bk" "" "", inr (Scripted.keys_page ["a"] true));
     (keys_request "bk" "" "a", inr (Scripted.keys_page [] true))]
  /\ IsTruncated (Scripted.keys_page [] true) = true
  /\ yields (trace r) = ["a"]
  /\ result r = Raised IndexError
  /\ final r = [inr (Scripted.keys_page ["z"] false)].
Proof. cbn zeta. split_and!; reflexivity. Qed.

(** ** Failures of the SDK *)

Section Failures.

Context {E : Env}.

Lemma surfaces_silent {A} (t : list event) (o : outcome A) (w : world) :
  (forall ev, ev ∈ t -> sdk_failure ev = None) -> surfaces (Run t o w).
Proof. intros Ht ev e Hin He. rewrite (Ht _ Hin) in He. done. Qed.

Lemma surfaces_ret {A} (a : A) w : surfaces (ret a w).
Proof. by apply surfaces_silent; intros ? ?%elem_of_nil. Qed.

Lemma surfaces_lift {A} (x : exn + A) w : surfaces (lift x w).
Proof. destruct x; by apply surfaces_silent; intros ? ?%elem_of_nil. Qed.

Lemma surfaces_yield s w : surfaces (yield s w).
Proof. apply surfaces_silent. by intros ? ->%list_elem_of_singleton. Qed.

Lemma surfaces_perform {A} (ev : exn + A -> event) call w :
  (forall a, sdk_failure (ev (inr a)) = None) ->
  (forall e e', sdk_failure (ev (inl e)) = Some e' -> e' = e) ->
  surfaces (perform ev call w).
Proof.
  intros Hok Herr. unfold perform. destruct (call w) as [[e|a] w1].
  - intros ev' e' ->%list_elem_of_singleton He. cbn.
    by rewrite (Herr _ _ He).
  - apply surfaces_silent. intros ? ->%list_elem_of_singleton. apply Hok.
Qed.

(** The runs of one call to the SDK. *)
Ltac sdk_call := apply surfaces_perform; [done | by intros ?? [= <-]].

Lemma surfaces_bind {A B} (m : M A) (k : A -> M B) w :
  surfaces (m w) ->
  (forall a, result (m w) = Returned a -> surfaces (k a (final (m w)))) ->
  surfaces (bind m k w).
Proof.
  intros Hm Hk. unfold bind.
  destruct (m w) as [t1 [a|e|] w1] eqn:Hmw; cbn [result trace final] in *;
    [| |].
  2: { intros ev e' Hin He. destruct (Hm ev e' Hin He) as [[= ->] ?]. done. }
  2: { intros ev e' Hin He. by destruct (Hm ev e' Hin He). }
  specialize (Hk a eq_refl).
  intros ev e [Hin|Hin]%elem_of_app He; cbn [result trace].
  - by destruct (Hm ev e Hin He).
  - destruct (Hk ev e Hin He) as [-> Hl]. split; [done|].
    destruct (trace (k a w1)) as [|x t2] eqn:Ht2; [done|].
    rewrite <-Hl. by rewrite last_app_cons.
Qed.

Lemma surfaces_for_each {A} (l : list A) (body : A -> M unit) w :
  (forall x w', surfaces (body x w')) -> surfaces (for_each l body w).
Proof.
  intros Hbody. revert w. induction l as [|x l IH]; intros w; cbn [for_each].
  - apply surfaces_ret.
  - apply surfaces_bind; [apply Hbody|]. intros _ _. apply IH.
Qed.

Lemma surfaces_call_list_objects_v2 req w : surfaces (call_list_objects_v2 req w).
Proof. sdk_call. Qed.

Lemma surfaces_iterate_dirs_from fuel b p t w :
  surfaces (iterate_dirs_from fuel b p t w).
Proof.
  revert p t w. induction fuel as [|fuel IH]; intros p t w; cbn [iterate_dirs_from].
  { by apply surfaces_silent; intros ? ?%elem_of_nil. }
  apply surfaces_bind.
  { destruct (truthy t); apply surfaces_call_list_objects_v2. }
  intros resp _. apply surfaces_bind.
  - destruct (CommonPrefixes resp) as [subdirs|]; [|apply surfaces_ret].
    apply surfaces_for_each. intros x w'.
    apply surfaces_bind; [apply surfaces_yield|]. intros _ _. apply IH.
  - intros _ _. destruct (NextContinuationToken resp); [apply IH|apply surfaces_ret].
Qed.

Lemma surfaces_iterate_keys_from fuel b p s w :
  surfaces (iterate_keys_from fuel b p s w).
Proof.
  revert s w. induction fuel as [|fuel IH]; intros s w; cbn [iterate_keys_from].
  { by apply surfaces_silent; intros ? ?%elem_of_nil. }
  apply surfaces_bind; [apply surfaces_call_list_objects_v2|].
  intros resp _. apply surfaces_bind.
  - apply surfaces_for_each. intros; apply surfaces_yield.
  - intros _ _. destruct (IsTruncated resp); [|apply surfaces_ret].
    apply surfaces_bind; [apply surfaces_lift|]. intros; apply IH.
Qed.

(** C8: every method lets the failures of the storage client and
    resource through unchanged.  In every run of every method, when a
    call to the SDK failed with an exception, the method raised that
    very exception and did nothing after the failed call. *)
Theorem sdk_failures_surface_unmodified :
  (forall bucket key decode w, surfaces (read_file bucket key decode w))
  /\ (forall bucket key content w, surfaces (write_file bucket key content w))
  /\ (forall src_bucket src_key trg_bucket trg_key w,
        surfaces (copy_file src_bucket src_key trg_bucket trg_key w))
  /\ (forall bucket key path w, surfaces (download_file bucket key path w))
  /\ (forall bucket key path w, surfaces (upload_file bucket key path w))
  /\ (forall bucket key w, surfaces (delete_file bucket key w))
  /\ (forall bucket key w, surfaces (get_file_size bucket key w))
  /\ (forall w, surfaces (list_buckets w))
  /\ (forall fuel bucket prefix w, surfaces (iterate_dirs fuel bucket prefix w))
  /\ (forall fuel bucket prefix w, surfaces (iterate_keys fuel bucket prefix w)).
Proof.
  split_and!; intros.
  - apply surfaces_bind; [sdk_call|].
    intros content _. destruct (truthy decode); [|apply surfaces_ret].
    apply surfaces_bind; [apply surfaces_lift|]. intros; apply surfaces_ret.
  - sdk_call.
  - sdk_call.
  - apply surfaces_bind.
    { apply surfaces_silent. by intros ? ->%list_elem_of_singleton. }
    intros found _. apply surfaces_bind.
    + destruct (negb found); [|apply surfaces_ret].
      apply surfaces_perform; [done|]. by intros ??.
    + intros _ _. sdk_call.
  - sdk_call.
  - sdk_call.
  - apply surfaces_bind; [sdk_call|]. intros; apply surfaces_ret.
  - apply surfaces_bind; [sdk_call|]. intros; apply surfaces_ret.
  - apply surfaces_iterate_dirs_from.
  - apply surfaces_iterate_keys_from.
Qed.

End Failures.

(** ** The local directory of a download *)

Section Download.

Context {E : Env}.

Lemma rfind_sep_from_none (i : Z) (s : string) :
  contains_sep s = false -> rfind_sep_from i s = (-1)%Z.
Proof.
  revert i. induction s as [|c s IH]; intros i Hs; [done|].
  cbn in *. apply orb_false_elim in Hs as [-> Hs]. by rewrite (IH _ Hs).
Qed.

Lemma dirname_bare (path : string) : contains_sep path = false -> dirname path = "".
Proof.
  intros Hs. unfold dirname, rfind_sep. rewrite (rfind_sep_from_none _ _ Hs).
  cbn. by destruct path.
Qed.

(** C10: for a local path without a directory separator the directory
    of the download is the empty string; where the operating system
    says that the empty path does not exist and fails to create it,
    [download_file] raises that failure after asking the operating
    system only: the storage client is not called.  For a local path
    whose directory exists, no directory is created and the client's
    download is called. *)
Theorem download_file_local_dir (bucket key path : string) (w : world) :
  (contains_sep path = false ->
     dirname path = ""
     /\ forall e w',
         os_path_exists "" w = false ->
         os_makedirs "" w = (inl e, w') ->
         download_file bucket key path w =
           Run [EvPathExists "" false; EvMakedirs "" (inl e)] (Raised e) w')
  /\ (os_path_exists (dirname path) w = true ->
      download_file bucket key path w =
        Run [EvPathExists (dirname path) true;
             EvDownloadFile bucket key path (client_download_file bucket key path w).1]
            (match (client_download_file bucket key path w).1 with
             | inl e => Raised e
             | inr a => Returned a
             end)
            (client_download_file bucket key path w).2).
Proof.
  split.
  - intros Hs. split; [by apply dirname_bare|]. intros e w' Hex Hmk.
    unfold download_file. rewrite (dirname_bare _ Hs).
    erewrite bind_returned; [|reflexivity]. rewrite Hex. cbn [negb].
    erewrite bind_raised; [done|]. unfold perform. by rewrite Hmk.
  - intros Hex. unfold download_file.
    erewrite bind_returned; [|reflexivity]. rewrite Hex. cbn [negb].
    erewrite bind_returned; [|reflexivity]. unfold perform.
    by destruct (client_download_file bucket key path w) as [[e|[]] w1].
Qed.

End Download.

(** ** Directory iteration against any client *)

Section Dirs.

Context {E : Env}.

(** One turn of the loop of [iterate_dirs]. *)
Lemma iterate_dirs_from_S (fuel : nat) (b p t : string) (w : world) :
  iterate_dirs_from (S fuel) b p t w =
    match client_list_objects_v2 (dirs_request b p t) w with
    | (inl e, w1) => Run [EvListObjectsV2 (dirs_request b p t) (inl e)] (Raised e) w1
    | (inr resp, w1) =>
        let call := EvListObjectsV2 (dirs_request b p t) (inr resp) in
        let sub := descend fuel b resp w1 in
        match result sub with
        | Returned _ =>
            match NextContinuationToken resp with
            | Some token =>
                let r := iterate_dirs_from fuel b p token (final sub) in
                Run (call :: trace sub ++ trace r) (result r) (final r)
            | None => Run (call :: trace sub) (Returned tt) (final sub)
            end
        | Raised e => Run (call :: trace sub) (Raised e) (final sub)
        | OutOfFuel => Run (call :: trace sub) OutOfFuel (final sub)
        end
    end.
Proof.
  cbn [iterate_dirs_from].
  assert ((if truthy t
           then call_list_objects_v2
                  {| req_Bucket := b; req_Prefix := p; req_Delimiter := Some "/";
                     req_MaxKeys := None; req_StartAfter := None;
                     req_ContinuationToken := Some t |}
           else call_list_objects_v2
                  {| req_Bucket := b; req_Prefix := p; req_Delimiter := Some "/";
                     req_MaxKeys := None; req_StartAfter := None;
                     req_ContinuationToken := None |})
          = call_list_objects_v2 (dirs_request b p t)) as ->.
  { unfold dirs_request. by destruct (truthy t). }
  unfold call_list_objects_v2.
  destruct (client_list_objects_v2 (dirs_request b p t) w) as [[e|resp] w1] eqn:Hcall.
  { erewrite bind_raised; [done|]. unfold perform. by rewrite Hcall. }
  erewrite bind_returned; [|unfold perform; by rewrite Hcall].
  fold (descend fuel b resp). cbn zeta.
  destruct (descend fuel b resp w1) as [ts [[]|e|] w2] eqn:Hsub; cbn [result trace final].
  - erewrite bind_returned; [|exact Hsub]. cbn [trace result final app].
    destruct (NextContinuationToken resp); [done|]. cbn. by rewrite app_nil_r.
  - erewrite bind_raised; [|exact Hsub]. done.
  - erewrite bind_out_of_fuel; [|exact Hsub]. done.
Qed.

(** With fuel left, a turn of the loop starts with its listing call. *)
Lemma dirs_first_call (fuel : nat) (b p t : string) (w : world) :
  exists tl,
    trace (iterate_dirs_from (S fuel) b p t w)
    = EvListObjectsV2 (dirs_request b p t)
        (client_list_objects_v2 (dirs_request b p t) w).1 :: tl.
Proof.
  rewrite iterate_dirs_from_S.
  destruct (client_list_objects_v2 (dirs_request b p t) w) as [[e|resp] w1];
    [by eexists|].
  cbn zeta. destruct (result _); [destruct (NextContinuationToken resp)|..];
    by eexists.
Qed.

Lemma descend_no_prefixes (fuel : nat) (b : string) resp (w : world) :
  default [] (CommonPrefixes resp) = [] ->
  descend fuel b resp w = Run [] (Returned tt) w.
Proof.
  unfold descend. destruct (CommonPrefixes resp) as [l|]; [|done].
  cbn. by intros ->.
Qed.

Lemma pages_on_silent {A} next (t : list event) (o : outcome A) (w : world) :
  (forall ev, ev ∈ t -> listing_calls [ev] = []) -> pages_on next (Run t o w).
Proof.
  intros Ht t1 q resp t2 token Htr. cbn in Htr.
  specialize (Ht (EvListObjectsV2 q (inr resp))). rewrite Htr in Ht.
  discriminate Ht. apply elem_of_app. right. apply list_elem_of_here.
Qed.

Lemma pages_on_bind {A B} next (m : M A) (k : A -> M B) w :
  pages_on next (m w) ->
  (forall a, result (m w) = Returned a -> pages_on next (k a (final (m w)))) ->
  pages_on next (bind m k w).
Proof.
  intros Hm Hk. unfold bind.
  destruct (m w) as [ta [a|e|] w1] eqn:Hmw; cbn [result trace final] in *.
  2: { intros t1 q resp t2 token Htr Hcp Htok.
       specialize (Hm t1 q resp t2 token Htr Hcp Htok).
       destruct t2; [done|exact Hm]. }
  2: { intros t1 q resp t2 token Htr Hcp Htok.
       specialize (Hm t1 q resp t2 token Htr Hcp Htok).
       destruct t2; [done|exact Hm]. }
  specialize (Hk a eq_refl).
  intros t1 q resp t2 token Htr Hcp Htok. cbn [trace result] in *.
  apply app_eq_inv in Htr as [(l & Hta & Hl)|(l & -> & Htb)].
  - destruct l as [|ev l]; cbn in Hl.
    + rewrite app_nil_r in Hta. subst ta.
      by apply (Hk [] q resp t2 token).
    + injection Hl as <- ->.
      specialize (Hm t1 q resp l token Hta Hcp Htok).
      destruct l as [|ev' l]; [done|exact Hm].
  - by apply (Hk l q resp t2 token).
Qed.

Lemma pages_on_for_each {A} next (l : list A) (body : A -> M unit) w :
  (forall x w', pages_on next (body x w')) -> pages_on next (for_each l body w).
Proof.
  intros Hbody. revert w. induction l as [|x l IH]; intros w; cbn [for_each].
  - by apply pages_on_silent; intros ? ?%elem_of_nil.
  - apply pages_on_bind; [apply Hbody|]. intros _ _. apply IH.
Qed.

Lemma pages_on_iterate_dirs_from (fuel : nat) (b p t : string) (w : world) :
  pages_on next_dirs_request (iterate_dirs_from fuel b p t w).
Proof.
  revert p t w. induction fuel as [|fuel IH]; intros p t w.
  { by apply pages_on_silent; intros ? ?%elem_of_nil. }
  assert (Hsub : forall resp w1, pages_on next_dirs_request (descend fuel b resp w1)).
  { intros resp w1. unfold descend.
    destruct (CommonPrefixes resp) as [subdirs|];
      [|by apply pages_on_silent; intros ? ?%elem_of_nil].
    apply pages_on_for_each. intros x w'.
    apply pages_on_bind; [|intros; apply IH].
    apply pages_on_silent. by intros ? ->%list_elem_of_singleton. }
  intros t1 q resp t2 token Htr Hcp Htok.
  destruct t1 as [|ev1 t1].
  - (* the response of this turn *)
    destruct (dirs_first_call fuel b p t w) as (tl & Hfirst).
    rewrite Hfirst in Htr. injection Htr as <- Hcall ->.
    rewrite iterate_dirs_from_S in Hfirst |- *.
    destruct (client_list_objects_v2 (dirs_request b p t) w) as [[e|resp0] w1];
      cbn in Hcall; simplify_eq.
    cbn zeta in *.
    rewrite (descend_no_prefixes fuel b resp w1 Hcp) in Hfirst |- *.
    cbn [result trace final app] in *. rewrite Htok in *.
    cbn [result trace final app] in *. injection Hfirst as Ht2.
    destruct fuel as [|fuel]; [by subst t2|].
    destruct (dirs_first_call fuel b p token w1) as (tl & Htl).
    rewrite Htl in Ht2. subst t2. by eexists.
  - (* a response further on *)
    rewrite iterate_dirs_from_S in Htr |- *.
    destruct (client_list_objects_v2 (dirs_request b p t) w) as [[e|resp0] w1].
    { cbn in Htr. simplify_eq. by destruct t1. }
    cbn zeta in *. specialize (Hsub resp0 w1).
    destruct (descend fuel b resp0 w1) as [ts [[]|e|] w2] eqn:Hd;
      cbn [result trace final] in *.
    + destruct (NextContinuationToken resp0) as [tok0|] eqn:Htok0;
        cbn [trace result] in *; injection Htr as _ Htr.
      * assert (Hb : pages_on next_dirs_request
                  (bind (fun _ => Run ts (Returned tt) w2)
                        (fun _ => iterate_dirs_from fuel b p tok0) w1)).
        { apply pages_on_bind; [exact Hsub|]. intros; apply IH. }
        by apply (Hb t1 q resp t2 token).
      * specialize (Hsub t1 q resp t2 token Htr Hcp Htok).
        destruct t2; [done|exact Hsub].
    + injection Htr as _ Htr.
      by specialize (Hsub t1 q resp t2 token Htr Hcp Htok).
    + injection Htr as _ Htr.
      by specialize (Hsub t1 q resp t2 token Htr Hcp Htok).
Qed.

(** The loop of [iterate_dirs] for any value of the token, the empty
    string included: every listing response of a run that has no common
    prefixes (the list empty or the key absent) and carries a token is
    followed at once by a further listing call for the same bucket and
    prefix, the call that [dirs_request] builds from the token.  The turn
    of a response without a token ends with the directories of its page,
    and a response with a token, once the directories of its page are
    done, goes on to the turn of that token. *)
Theorem iterate_dirs_pages_on (fuel : nat) (bucket prefix : string) (w : world) :
  pages_on next_dirs_request (iterate_dirs fuel bucket prefix w)
  /\ (forall q token,
        req_ContinuationToken (next_dirs_request q token)
        = if truthy token then Some token else None)
  /\ (forall token resp w1,
        client_list_objects_v2 (dirs_request bucket prefix token) w = (inr resp, w1) ->
        let call := EvListObjectsV2 (dirs_request bucket prefix token) (inr resp) in
        let sub := descend fuel bucket resp w1 in
        let r := iterate_dirs_from (S fuel) bucket prefix token w in
        (NextContinuationToken resp = None ->
           r = Run (call :: trace sub) (result sub) (final sub))
        /\ (forall token', NextContinuationToken resp = Some token' ->
              result sub = Returned tt ->
              let next := iterate_dirs_from fuel bucket prefix token' (final sub) in
              r = Run (call :: trace sub ++ trace next) (result next) (final next))).
Proof.
  split_and!.
  - apply pages_on_iterate_dirs_from.
  - done.
  - intros token resp w1 Hcall. cbn zeta. rewrite iterate_dirs_from_S, Hcall.
    cbn zeta. split.
    + intros ->. by destruct (result (descend fuel bucket resp w1)) as [[]| |].
    + intros token' -> ->. done.
Qed.

(** A continuation token is passed on as it came. *)
Lemma next_dirs_request_token (q : ListObjectsV2Request) (token : string) :
  token <> "" -> next_dirs_request q token = next_request_with_token q token.
Proof. intros Ht. by destruct token. Qed.

(** C3: every listing response of a run of [iterate_dirs] that has no
    common prefixes (the list empty or the key absent) but carries a
    continuation token is followed at once by a further listing call
    for the same bucket and prefix that passes that token: the run does
    not end there (only the bound on its calls can cut it).  Paging at a
    level ends exactly with a response without a continuation token: the
    turn of such a response ends with the directories of its page, and a
    response with a token, once the directories of its page are done,
    goes on to the turn of that token.  A continuation token is a string
    that is not empty: the empty string is the loop's own value for no
    token yet (line 120). *)
Theorem iterate_dirs_continues_with_token
    (fuel : nat) (bucket prefix : string) (w : world) :
  (forall t1 q resp t2 token,
      trace (iterate_dirs fuel bucket prefix w)
      = t1 ++ EvListObjectsV2 q (inr resp) :: t2 ->
      default [] (CommonPrefixes resp) = [] ->
      NextContinuationToken resp = Some token -> token <> "" ->
      match t2 with
      | [] => result (iterate_dirs fuel bucket prefix w) = OutOfFuel
      | ev :: _ => exists x, ev = EvListObjectsV2 (next_request_with_token q token) x
      end)
  /\ (forall token resp w1,
        client_list_objects_v2 (dirs_request bucket prefix token) w = (inr resp, w1) ->
        let call := EvListObjectsV2 (dirs_request bucket prefix token) (inr resp) in
        let sub := descend fuel bucket resp w1 in
        let r := iterate_dirs_from (S fuel) bucket prefix token w in
        (NextContinuationToken resp = None ->
           r = Run (call :: trace sub) (result sub) (final sub))
        /\ (forall token', NextContinuationToken resp = Some token' ->
              result sub = Returned tt ->
              let next := iterate_dirs_from fuel bucket prefix token' (final sub) in
              r = Run (call :: trace sub ++ trace next) (result next) (final next))).
Proof.
  split.
  - intros t1 q resp t2 token Htr Hcp Htok Hne.
    pose proof (pages_on_iterate_dirs_from fuel bucket prefix "" w
                  t1 q resp t2 token Htr Hcp Htok) as Hnext.
    by rewrite (next_dirs_request_token q token Hne) in Hnext.
  - intros token resp w1 Hcall. cbn zeta. rewrite iterate_dirs_from_S, Hcall.
    cbn zeta. split.
    + intros ->. by destruct (result (descend fuel bucket resp w1)) as [[]| |].
    + intros token' -> ->. done.
Qed.

End Dirs.

(** The empty string is not a continuation token for the loop: a client
    whose first page carried the empty string as its token, which a
    listing service does not give, would be answered by the first
    request again. *)
Lemma iterate_dirs_empty_token_restarts :
  let script := [inr (Scripted.dirs_page None (Some ""));
                 inr (Scripted.dirs_page None None)] in
  let r := iterate_dirs (E := Scripted.env) 2 "bk" "" script in
  listing_calls (trace r)
  = [(dirs_request "bk" "" "", inr (Scripted.dirs_page None (Some "")));
     (dirs_request "bk" "" "", inr (Scripted.dirs_page None None))]
  /\ req_ContinuationToken (dirs_request "bk" "" "") = None
  /\ ~ pages_on next_request_with_token r.
Proof.
  cbn zeta. split_and!; [done..|].
  intros H.
  specialize (H [] (dirs_request "bk" "" "")
                (Scripted.dirs_page None (Some ""))
                [EvListObjectsV2 (dirs_request "bk" "" "")
                   (inr (Scripted.dirs_page None None))]
                "" eq_refl eq_refl eq_refl).
  destruct H as [x Hx]. discriminate Hx.
Qed.

(** ** The order of the keys *)

Section Order.

Lemma ltb_strict (a b : string) : Is_true (String.ltb a b) <-> strict String.le a b.
Proof.
  unfold strict, String.le, String.ltb, String.leb.
  rewrite (String.compare_antisym b a).
  destruct (String.compare a b); cbn; intuition.
Qed.

Lemma ltb_trans (a b c : string) :
  Is_true (String.ltb a b) -> Is_true (String.ltb b c) -> Is_true (String.ltb a c).
Proof. rewrite !ltb_strict. apply transitivity. Qed.

Lemma ltb_irrefl (a : string) : ~ Is_true (String.ltb a a).
Proof. rewrite ltb_strict. apply irreflexivity, _. Qed.

Lemma ltb_asym (a b : string) :
  Is_true (String.ltb a b) -> ~ Is_true (String.ltb b a).
Proof. intros Hab Hba. exact (ltb_irrefl a (ltb_trans _ _ _ Hab Hba)). Qed.

Lemma ltb_empty (k : string) : k <> "" -> Is_true (String.ltb "" k).
Proof. by destruct k. Qed.

Lemma ascending_sorted_NoDup (l : list string) :
  StronglySorted String.le l -> NoDup l -> ascending l.
Proof.
  induction 1 as [|x l Hl IH Hx]; intros Hnd; [constructor|].
  apply NoDup_cons in Hnd as [Hnin Hnd]. constructor; [by apply IH|].
  apply Forall_forall. intros y Hy. apply ltb_strict, strict_spec_alt.
  split; [by eapply Forall_forall in Hx|]. by intros ->.
Qed.

Lemma ascending_filter (P : string -> Prop) `{!forall x, Decision (P x)} l :
  ascending l -> ascending (filter P l).
Proof.
  induction 1 as [|x l Hl IH Hx]; [constructor|].
  rewrite filter_cons. destruct (decide (P x)); [|done].
  constructor; [done|]. apply Forall_forall. intros y [_ Hy]%list_elem_of_filter.
  by eapply Forall_forall in Hx.
Qed.

Lemma ascending_NoDup (l : list string) : ascending l -> NoDup l.
Proof.
  induction 1 as [|x l Hl IH Hx]; constructor; [|done].
  intros Hin. eapply Forall_forall in Hx; [|done]. by apply ltb_irrefl in Hx.
Qed.

Lemma filter_all {A} (P : A -> Prop) `{!forall x, Decision (P x)} (l : list A) :
  Forall P l -> filter P l = l.
Proof.
  induction 1 as [|x l Hx _ IH]; [done|]. by rewrite filter_cons_True, IH.
Qed.

Lemma filter_none {A} (P : A -> Prop) `{!forall x, Decision (P x)} (l : list A) :
  Forall (fun x => ~ P x) l -> filter P l = [].
Proof.
  induction 1 as [|x l Hx _ IH]; [done|]. by rewrite filter_cons_False.
Qed.

(** In an ascending list, what comes after an element is what is
    greater than it. *)
Lemma ascending_after (l1 l2 : list string) (x : string) :
  ascending (l1 ++ x :: l2) ->
  filter (fun k => Is_true (String.ltb x k)) (l1 ++ x :: l2) = l2.
Proof.
  intros Hl. apply StronglySorted_app in Hl as (H12 & H1 & H2).
  apply StronglySorted_cons in H2 as [Hx H2].
  rewrite filter_app, filter_cons_False by apply ltb_irrefl.
  rewrite filter_none, filter_all; [done..|].
  apply Forall_forall. intros y Hy. apply ltb_asym, H12; [done|].
  apply list_elem_of_here.
Qed.

Lemma remove_dups_NoDup {A} `{!EqDecision A} (l : list A) :
  NoDup l -> remove_dups l = l.
Proof.
  induction 1 as [|x l Hx _ IH]; [done|].
  cbn. destruct (decide_rel elem_of x l); [done|]. by rewrite IH.
Qed.

End Order.

(** ** Key iteration against the in-memory service *)

Section MockKeys.

Lemma sorted_keys_ascending (m : gmap string bytes) : ascending (Mock.sorted_keys m).
Proof.
  apply ascending_sorted_NoDup.
  - apply StronglySorted_merge_sort; apply _.
  - unfold Mock.sorted_keys. rewrite merge_sort_Permutation. apply NoDup_elements.
Qed.

Lemma elem_of_sorted_keys (m : gmap string bytes) (k : string) :
  k ∈ Mock.sorted_keys m <-> k ∈ dom m.
Proof.
  unfold Mock.sorted_keys. by rewrite merge_sort_Permutation, elem_of_elements.
Qed.

Lemma length_sorted_keys (m : gmap string bytes) :
  length (Mock.sorted_keys m) = size m.
Proof.
  unfold Mock.sorted_keys. rewrite merge_sort_Permutation.
  by rewrite <-size_dom.
Qed.

Lemma omap_classify_flat (p : string) (l : list string) :
  omap (Mock.classify p false) l = Mock.KeyEntry <$> keys_under p l.
Proof.
  unfold keys_under. induction l as [|k l IH]; [done|].
  rewrite filter_cons. cbn. unfold Mock.classify at 1.
  destruct (Mock.strip_prefix p k) as [r|] eqn:Hr; cbn.
  - rewrite decide_True by done. by rewrite IH.
  - rewrite decide_False by (by intros []). done.
Qed.

Lemma entries_flat (p s : string) (keys : list string) :
  NoDup keys ->
  Mock.entries p false (Some s) keys = Mock.KeyEntry <$> keys_after p s keys.
Proof.
  intros Hnd. unfold Mock.entries. rewrite omap_classify_flat.
  apply remove_dups_NoDup. apply NoDup_fmap_2; [by intros ?? [=]|].
  by do 2 apply NoDup_filter.
Qed.

Lemma default_present {A} (l : list A) : default [] (Mock.present l) = l.
Proof. by destruct l. Qed.

Lemma page_of_flat (m : gmap string bytes) (n : nat) (ks : list string) :
  let resp := Mock.page_of m n 0 (Mock.KeyEntry <$> ks) in
  Key <$> default [] (Contents resp) = take n ks
  /\ IsTruncated resp = bool_decide (n < length ks).
Proof.
  cbn. rewrite default_present, !drop_0, length_fmap. split; [|done].
  rewrite <-fmap_take. generalize (take n ks). intros l.
  induction l as [|k l IH]; [done|]. cbn. by rewrite IH.
Qed.

Lemma mock_keys_call (st : Mock.state) (b p s : string) (m : gmap string bytes) :
  Mock.buckets st !! b = Some m ->
  @client_list_objects_v2 Mock.env (keys_request b p s) st
  = (inr (Mock.page_of m (Mock.page_size (Some keys_per_page) st) 0
            (Mock.KeyEntry <$> keys_after p s (Mock.sorted_keys m))), st).
Proof.
  intros Hm. cbn. unfold Mock.list_objects_v2. cbn. rewrite Hm.
  rewrite entries_flat; [done|]. apply ascending_NoDup, sorted_keys_ascending.
Qed.

(** The cursor of the next page: after the last key of a page come the
    keys the page left. *)
Lemma keys_after_next (p s x : string) (n : nat) (keys : list string) :
  ascending keys ->
  last (take n (keys_after p s keys)) = Some x ->
  keys_after p x keys = drop n (keys_after p s keys).
Proof.
  intros Hasc Hlast.
  assert (HK : ascending (keys_after p s keys)).
  { by do 2 apply ascending_filter. }
  apply last_Some in Hlast as [l' Hl'].
  assert (Hsplit : keys_after p s keys = l' ++ x :: drop n (keys_after p s keys)).
  { rewrite <-(take_drop n (keys_after p s keys)) at 1.
    by rewrite Hl', <-app_assoc. }
  assert (Hsx : Is_true (String.ltb s x)).
  { assert (Hx : x ∈ keys_after p s keys).
    { rewrite Hsplit. apply elem_of_app. right. apply list_elem_of_here. }
    unfold keys_after, keys_under in Hx.
    by apply list_elem_of_filter in Hx as [_ [? _]%list_elem_of_filter]. }
  rewrite Hsplit in HK. rewrite <-(ascending_after _ _ _ HK), <-Hsplit.
  unfold keys_after, keys_under. rewrite !list_filter_filter.
  apply list_filter_iff. intros k. split; [|tauto].
  intros [? ?]. split_and!; [done..|]. by apply ltb_trans with x.
Qed.

Lemma yields_turn q x (l : list string) (t : list event) :
  yields (EvListObjectsV2 q x :: (Yield <$> l) ++ t) = l ++ yields t.
Proof.
  change (yields ([EvListObjectsV2 q x] ++ (Yield <$> l) ++ t) = l ++ yields t).
  by rewrite !yields_app, yields_Yield.
Qed.

Lemma page_count_small (len n : nat) : len <= n -> 0 < n -> page_count len n = 1.
Proof. intros. unfold page_count. rewrite Nat.div_small; lia. Qed.

Lemma page_count_more (len n : nat) :
  n < len -> 0 < n -> page_count len n = S (page_count (len - n) n).
Proof.
  intros. unfold page_count.
  replace (len - 1) with ((len - n - 1) + 1 * n) by lia.
  rewrite Nat.div_add by lia. lia.
Qed.

(** Against the in-memory service the loop of [iterate_keys] yields the
    keys after its cursor, page by page. *)
Lemma mock_keys_run (st : Mock.state) (b p : string) (m : gmap string bytes) :
  Mock.buckets st !! b = Some m ->
  let n := Mock.page_size (Some keys_per_page) st in
  0 < n ->
  forall len s fuel,
    length (keys_after p s (Mock.sorted_keys m)) = len ->
    page_count len n <= fuel ->
    let r := iterate_keys_from (E := Mock.env) fuel b p s st in
    result r = Returned tt
    /\ yields (trace r) = keys_after p s (Mock.sorted_keys m)
    /\ length (listing_calls (trace r)) = page_count len n
    /\ final r = st.
Proof.
  intros Hm n Hn len. induction len as [len IH] using lt_wf_ind.
  intros s fuel Hlen Hfuel. cbn zeta.
  destruct fuel as [|fuel]; [unfold page_count in Hfuel; lia|].
  rewrite iterate_keys_from_S, (mock_keys_call st b p s m Hm). fold n.
  set (K := keys_after p s (Mock.sorted_keys m)) in *.
  destruct (page_of_flat m n K) as [-> ->]. cbn zeta.
  case_bool_decide as Hmore.
  - destruct (last (take n K)) as [x|] eqn:Hlast.
    + pose proof (keys_after_next p s x n _ (sorted_keys_ascending m) Hlast) as Hnext.
      fold K in Hnext.
      rewrite (page_count_more len n) in Hfuel |- * by lia.
      destruct (IH (len - n) ltac:(lia) x fuel) as (Hr & Hy & Hc & Hf).
      { rewrite Hnext, length_drop. lia. }
      { lia. }
      cbn [trace result final]. rewrite yields_turn, listing_calls_turn.
      split_and!; [done| |cbn; by rewrite Hc|done].
      by rewrite Hy, Hnext, take_drop.
    + apply last_None_nil in Hlast. apply (f_equal length) in Hlast.
      rewrite length_take in Hlast. cbn in Hlast. lia.
  - cbn [trace result final]. rewrite take_ge by lia.
    rewrite <-(app_nil_r (Yield <$> K)), yields_turn, listing_calls_turn.
    rewrite page_count_small by lia. by rewrite app_nil_r.
Qed.

Lemma keys_after_all (keys : list string) :
  "" ∉ keys -> keys_after "" "" keys = keys.
Proof.
  intros Hne. unfold keys_after, keys_under.
  rewrite filter_all; [rewrite filter_all; [done|]|].
  - apply Forall_forall. intros k Hk. apply ltb_empty. by intros ->.
  - apply Forall_forall. by intros k _.
Qed.

(** C1: a bucket of exactly 10,001 keys behind a service that gives
    pages of 10000 is listed by [iterate_keys] in exactly two listing
    calls; the generator is exhausted normally and has yielded the keys
    of the bucket in the order of the listing, each key once and none
    left out. *)
Theorem iterate_keys_two_pages
    (st : Mock.state) (bucket : string) (m : gmap string bytes) (fuel : nat) :
  Mock.buckets st !! bucket = Some m ->
  Z.of_nat (size m) = 10001%Z ->
  m !! "" = None ->
  (10000 <= Z.of_nat (Mock.page_limit st))%Z ->
  2 <= fuel ->
  let r := iterate_keys (E := Mock.env) fuel bucket "" st in
  result r = Returned tt
  /\ length (listing_calls (trace r)) = 2
  /\ yields (trace r) = Mock.sorted_keys m
  /\ NoDup (yields (trace r))
  /\ (forall k, k ∈ yields (trace r) <-> k ∈ dom m).
Proof.
  intros Hm Hsize Hempty Hlimit Hfuel. cbn zeta.
  set (n := Mock.page_size (Some keys_per_page) st).
  assert (Hn : Z.of_nat n = 10000%Z).
  { unfold n, Mock.page_size, keys_per_page. cbn [default]. unfold id. lia. }
  assert (Hall : keys_after "" "" (Mock.sorted_keys m) = Mock.sorted_keys m).
  { apply keys_after_all. rewrite elem_of_sorted_keys.
    by apply not_elem_of_dom. }
  assert (Hcount : page_count (size m) n = 2).
  { rewrite page_count_more by lia. rewrite page_count_small by lia. done. }
  destruct (mock_keys_run st bucket "" m Hm ltac:(fold n; lia) (size m) "" fuel)
    as (Hr & Hy & Hc & _).
  { by rewrite Hall, length_sorted_keys. }
  { fold n. by rewrite Hcount. }
  fold n in Hc. rewrite Hcount in Hc. rewrite Hall in Hy.
  unfold iterate_keys. rewrite Hy. split_and!; [done..| |].
  - apply ascending_NoDup, sorted_keys_ascending.
  - apply elem_of_sorted_keys.
Qed.

End MockKeys.

(** ** Directory iteration against the in-memory service *)

Section Strings.

Lemma str_app_cons (c : ascii) (a b : string) :
  String c a +:+ b = String c (a +:+ b).
Proof. done. Qed.

Lemma str_app_length (a b : string) :
  String.length (a +:+ b) = String.length a + String.length b.
Proof.
  induction a as [|c a IH]; [done|]. rewrite str_app_cons. cbn. by f_equal.
Qed.

Lemma str_app_assoc (a b c : string) : (a +:+ b) +:+ c = a +:+ (b +:+ c).
Proof. induction a as [|x a IH]; [done|]. rewrite !str_app_cons. by f_equal. Qed.

Lemma strip_prefix_app (p r : string) : Mock.strip_prefix p (p +:+ r) = Some r.
Proof.
  induction p as [|c p IH]; [done|]. rewrite str_app_cons. cbn.
  by rewrite Ascii.eqb_refl.
Qed.

Lemma strip_prefix_Some (p k r : string) :
  Mock.strip_prefix p k = Some r -> k = p +:+ r.
Proof.
  revert k. induction p as [|c p IH]; intros k; cbn; [by intros [= ->]|].
  destruct k as [|c' k]; [done|].
  destruct (Ascii.eqb_spec c c') as [->|]; [|done].
  intros Hk. by rewrite (IH _ Hk).
Qed.

Lemma upto_sep_Some (r seg : string) :
  Mock.upto_sep r = Some seg ->
  exists s r', seg = s +:+ "/" /\ r = seg +:+ r'.
Proof.
  revert seg. induction r as [|c r IH]; intros seg; cbn; [done|].
  destruct (Ascii.eqb_spec c sep) as [->|Hc].
  - intros [= <-]. by exists "", r.
  - destruct (Mock.upto_sep r) as [seg'|]; [|done]. intros [= <-].
    destruct (IH seg' eq_refl) as (s & r' & -> & Hr).
    exists (String c s), r'. cbn. split; [done|]. by rewrite Hr at 1.
Qed.

(** The first segment of a path that has a "/" in it. *)
Lemma upto_sep_app (s r : string) :
  exists s1,
    Mock.upto_sep (s +:+ "/" +:+ r) = Some (s1 +:+ "/")
    /\ (s = s1 \/ exists s2, s = s1 +:+ "/" +:+ s2).
Proof.
  induction s as [|c s IH].
  - exists "". by split; [|left].
  - rewrite str_app_cons. cbn [Mock.upto_sep].
    destruct (Ascii.eqb_spec c sep) as [->|Hc].
    + exists "". split; [done|]. right. by exists s.
    + destruct IH as (s1 & -> & Hs). exists (String c s1). split; [done|].
      destruct Hs as [->|[s2 ->]]; [by left|right; by exists s2].
Qed.

Lemma offset_of_token (n : nat) : Mock.offset_of (Mock.token_of n) = Some n.
Proof.
  unfold Mock.offset_of, Mock.token_of. rewrite NilEmpty.usu. cbn.
  by rewrite Unsigned.of_to.
Qed.

Lemma truthy_token (n : nat) : truthy (Mock.token_of n) = true.
Proof.
  destruct (Mock.token_of n) as [|c s] eqn:Ht; [|done].
  pose proof (offset_of_token n) as Hn. rewrite Ht in Hn.
  injection Hn as <-. done.
Qed.

End Strings.

Section MockDirs.

Local Existing Instance Mock.env | 0.

Lemma mock_dirs_call (st : Mock.state) (b p tok : string) (off : nat)
    (m : gmap string bytes) :
  Mock.buckets st !! b = Some m ->
  (tok = "" /\ off = 0) \/ tok = Mock.token_of off ->
  @client_list_objects_v2 Mock.env (dirs_request b p tok) st
  = (inr (Mock.page_of m (Mock.page_size None st) off
            (Mock.entries p true None (Mock.sorted_keys m))), st).
Proof.
  intros Hm Htok. cbn. unfold Mock.list_objects_v2. cbn. rewrite Hm.
  destruct Htok as [[-> ->]| ->]; [done|].
  rewrite truthy_token. cbn. by rewrite offset_of_token.
Qed.

Lemma length_omap_le {A B} (f : A -> option B) (l : list A) :
  length (omap f l) <= length l.
Proof.
  induction l as [|x l IH]; [done|]. cbn. destruct (f x); cbn; lia.
Qed.

Lemma length_remove_dups_le {A} `{!EqDecision A} (l : list A) :
  length (remove_dups l) <= length l.
Proof.
  induction l as [|x l IH]; [done|]. cbn.
  destruct (decide_rel elem_of x l); cbn; lia.
Qed.

Lemma length_entries_le (p : string) (d : bool) (sa : option string)
    (keys : list string) :
  length (Mock.entries p d sa keys) <= length keys.
Proof.
  unfold Mock.entries.
  etrans; [apply length_remove_dups_le|].
  etrans; [apply length_omap_le|]. apply length_filter.
Qed.

Lemma dirs_of_app (l1 l2 : list Mock.entry) :
  dirs_of (l1 ++ l2) = dirs_of l1 ++ dirs_of l2.
Proof. apply omap_app. Qed.

Lemma dirs_of_prefixes (l : list Mock.entry) :
  Prefix <$> omap Mock.entry_prefix l = dirs_of l.
Proof.
  induction l as [|[k|q] l IH]; [done|done|]. cbn. by rewrite IH.
Qed.

Lemma children_spec (keys : list string) (p d : string) :
  d ∈ children keys p <->
  exists k r seg,
    k ∈ keys /\ Mock.strip_prefix p k = Some r
    /\ Mock.upto_sep r = Some seg /\ d = p +:+ seg.
Proof.
  unfold children, dirs_of, Mock.entries. rewrite list_elem_of_omap. split.
  - intros (e & He & Hd). apply elem_of_remove_dups, list_elem_of_omap in He.
    destruct He as (k & Hk & Hc). apply list_elem_of_filter in Hk as [_ Hk].
    unfold Mock.classify in Hc.
    destruct (Mock.strip_prefix p k) as [r|] eqn:Hr; [|done]. cbn in Hc.
    destruct (Mock.upto_sep r) as [seg|] eqn:Hseg; simplify_eq/=.
    by exists k, r, seg.
  - intros (k & r & seg & Hk & Hr & Hseg & ->).
    exists (Mock.PrefixEntry (p +:+ seg)). split; [|done].
    apply elem_of_remove_dups, list_elem_of_omap. exists k. split.
    + by apply list_elem_of_filter.
    + unfold Mock.classify. rewrite Hr. cbn. by rewrite Hseg.
Qed.

(** A directory is longer than the prefix it was listed under, and no
    longer than the longest key. *)
Lemma children_length (keys : list string) (p d : string) :
  d ∈ children keys p ->
  String.length p < String.length d <= height keys.
Proof.
  intros (k & r & seg & Hk & Hr & Hseg & ->)%children_spec.
  apply strip_prefix_Some in Hr as ->.
  apply upto_sep_Some in Hseg as (s & r' & -> & ->).
  rewrite !str_app_length. cbn. split; [lia|].
  assert (String.length (p +:+ (s +:+ "/") +:+ r') <= height keys) as Hle.
  { apply max_list_elem_of_le, list_elem_of_fmap. by eexists. }
  rewrite !str_app_length in Hle. cbn in Hle. lia.
Qed.

Lemma no_children (keys : list string) (p : string) :
  height keys <= String.length p -> children keys p = [].
Proof.
  intros Hh. destruct (children keys p) as [|d l] eqn:Hc; [done|].
  assert (Hd : d ∈ children keys p) by (rewrite Hc; apply list_elem_of_here).
  apply children_length in Hd. lia.
Qed.

Lemma flat_map_ext_elem {A B} (f g : A -> list B) (l : list A) :
  (forall x, x ∈ l -> f x = g x) -> flat_map f l = flat_map g l.
Proof.
  induction l as [|x l IH]; intros Hfg; [done|]. cbn.
  rewrite Hfg by apply list_elem_of_here. rewrite IH; [done|].
  intros y Hy. apply Hfg. by apply list_elem_of_further.
Qed.

(** Below the height of the keyspace the walk does not change. *)
Lemma walk_stable (keys : list string) (h : nat) (p : string) :
  height keys <= String.length p + h ->
  walk keys (S h) p = walk keys h p.
Proof.
  revert p. induction h as [|h IH]; intros p Hh.
  - cbn. rewrite no_children by lia. done.
  - change (flat_map (fun d => d :: walk keys (S h) d) (children keys p)
            = flat_map (fun d => d :: walk keys h d) (children keys p)).
    apply flat_map_ext_elem. intros d Hd.
    apply children_length in Hd. rewrite IH by lia. done.
Qed.

Lemma walk_enough (keys : list string) (h1 h2 : nat) (p : string) :
  height keys <= String.length p + h1 -> h1 <= h2 ->
  walk keys h2 p = walk keys h1 p.
Proof.
  intros Hh Hle. induction Hle as [|h2 Hle IH]; [done|].
  rewrite walk_stable by lia. apply IH.
Qed.

Lemma walk_height (keys : list string) (h : nat) (p : string) :
  height keys <= String.length p + h ->
  walk keys h p = walk keys (height keys) p.
Proof.
  intros Hh.
  rewrite <-(walk_enough keys h (Nat.max h (height keys)) p) by lia.
  apply walk_enough; lia.
Qed.

Lemma yields_call q x (t : list event) :
  yields (EvListObjectsV2 q x :: t) = yields t.
Proof. done. Qed.

Lemma descend_page (f : nat) (b : string) (m : gmap string bytes)
    (n off : nat) (all : list Mock.entry) (st : Mock.state) :
  descend (E := Mock.env) f b (Mock.page_of m n off all) st
  = for_each (omap Mock.entry_prefix (take n (drop off all)))
      (fun subdir =>
         bind (yield (Prefix subdir))
              (fun _ => iterate_dirs_from f b (Prefix subdir) "")) st.
Proof.
  unfold descend. cbn [CommonPrefixes Mock.page_of].
  by destruct (omap Mock.entry_prefix (take n (drop off all))).
Qed.

(** The [for] loop of a page, when what is below each of its
    directories is known. *)
Lemma for_each_subdirs (f : nat) (b : string) (st : Mock.state)
    (ds : list CommonPrefix) (W : string -> list string) :
  (forall d, d ∈ ds ->
     let r := iterate_dirs_from (E := Mock.env) f b (Prefix d) "" st in
     result r = Returned tt /\ yields (trace r) = W (Prefix d) /\ final r = st) ->
  let r := for_each ds
             (fun subdir =>
                bind (yield (Prefix subdir))
                     (fun _ => iterate_dirs_from (E := Mock.env) f b (Prefix subdir) ""))
             st in
  result r = Returned tt
  /\ yields (trace r) = flat_map (fun d => d :: W d) (Prefix <$> ds)
  /\ final r = st.
Proof.
  induction ds as [|d ds IH]; intros Hds; [done|]. cbn zeta.
  destruct (Hds d (list_elem_of_here _ _)) as (Hr & Hy & Hf). cbn zeta in *.
  destruct IH as (Hr' & Hy' & Hf').
  { intros d' Hd'. apply Hds. by apply list_elem_of_further. }
  cbn [for_each].
  erewrite bind_returned.
  2: { erewrite bind_returned; [|reflexivity].
       rewrite Hr, Hf. reflexivity. }
  cbn [trace result final]. rewrite Hr', Hf', !yields_app, Hy, Hy'. done.
Qed.

(** The pages of one level, when what is below each directory of the
    level is known: [x] units of fuel are enough below, [rem] bounds
    the entries the level still has to list. *)
Lemma mock_dirs_level (st : Mock.state) (b p : string) (m : gmap string bytes)
    (x : nat) (W : string -> list string) :
  Mock.buckets st !! b = Some m ->
  let n := Mock.page_size None st in
  let all := Mock.entries p true None (Mock.sorted_keys m) in
  0 < n ->
  (forall d f, d ∈ dirs_of all -> x <= f ->
     let r := iterate_dirs_from (E := Mock.env) f b d "" st in
     result r = Returned tt /\ yields (trace r) = W d /\ final r = st) ->
  forall rem off tok fuel,
    (tok = "" /\ off = 0) \/ tok = Mock.token_of off ->
    length all - off <= rem ->
    x + S rem <= fuel ->
    let r := iterate_dirs_from (E := Mock.env) fuel b p tok st in
    result r = Returned tt
    /\ yields (trace r) = flat_map (fun d => d :: W d) (dirs_of (drop off all))
    /\ final r = st.
Proof.
  intros Hm n all Hn Hbelow rem.
  induction rem as [rem IH] using lt_wf_ind.
  intros off tok fuel Htok Hrem Hfuel. cbn zeta.
  destruct fuel as [|fuel]; [lia|].
  rewrite iterate_dirs_from_S, (mock_dirs_call st b p tok off m Hm Htok).
  fold n all. cbn zeta. rewrite descend_page.
  destruct (for_each_subdirs fuel b st
              (omap Mock.entry_prefix (take n (drop off all))) W)
    as (Hr & Hy & Hf).
  { intros d Hd. apply Hbelow; [|lia].
    rewrite <-dirs_of_prefixes, <-(take_drop off all), omap_app.
    rewrite fmap_app. apply elem_of_app. right.
    rewrite <-(take_drop n (drop off all)), omap_app, fmap_app.
    apply elem_of_app. left. apply list_elem_of_fmap. by exists d. }
  cbn zeta in Hr, Hy, Hf. rewrite Hr, Hf. rewrite dirs_of_prefixes in Hy.
  cbn [NextContinuationToken Mock.page_of IsTruncated].
  case_bool_decide as Hmore.
  - rewrite length_drop in Hmore.
    destruct (IH (rem - 1) ltac:(lia) (off + n) (Mock.token_of (off + n)) fuel)
      as (Hr' & Hy' & Hf'); [by right|lia|lia|].
    cbn zeta in Hr', Hy', Hf'. cbn [trace result final].
    split_and!; [done| |done].
    rewrite yields_call, yields_app, Hy, Hy'.
    rewrite <-flat_map_app, <-dirs_of_app. rewrite <-drop_drop, take_drop. done.
  - cbn [trace result final]. split_and!; [done| |done].
    rewrite yields_call, Hy.
    rewrite take_ge; [done|]. rewrite length_drop in Hmore |- *. lia.
Qed.

(** Against the in-memory service [iterate_dirs] walks the tree below
    its prefix; [S h * S (length keys)] listing calls deep are enough
    when no key is more than [h] longer than the prefix. *)
Lemma mock_dirs_run (st : Mock.state) (b : string) (m : gmap string bytes) :
  Mock.buckets st !! b = Some m ->
  0 < Mock.page_size None st ->
  forall h p fuel,
    height (Mock.sorted_keys m) <= String.length p + h ->
    S h * S (length (Mock.sorted_keys m)) <= fuel ->
    let r := iterate_dirs_from fuel b p "" st in
    result r = Returned tt
    /\ yields (trace r) = walk (Mock.sorted_keys m) (S h) p
    /\ final r = st.
Proof.
  intros Hm Hn h. set (keys := Mock.sorted_keys m).
  induction h as [|h IH]; intros p fuel Hh Hfuel.
  - apply (mock_dirs_level st b p m 0 (walk keys 0) Hm Hn)
      with (rem := length keys) (off := 0).
    + intros d f Hd _. fold keys in Hd.
      change (d ∈ children keys p) in Hd.
      rewrite no_children in Hd by lia. by apply elem_of_nil in Hd.
    + by left.
    + fold keys. pose proof (length_entries_le p true None keys). lia.
    + lia.
  - apply (mock_dirs_level st b p m (S h * S (length keys)) (walk keys (S h)) Hm Hn)
      with (rem := length keys) (off := 0).
    + intros d f Hd Hf. fold keys in Hd.
      change (d ∈ children keys p) in Hd.
      apply children_length in Hd. apply IH; lia.
    + by left.
    + fold keys. pose proof (length_entries_le p true None keys). lia.
    + lia.
Qed.

Lemma elem_of_flat_map {A B} (f : A -> list B) (l : list A) (y : B) :
  y ∈ flat_map f l <-> exists x, x ∈ l /\ y ∈ f x.
Proof.
  rewrite list_elem_of_In, in_flat_map. setoid_rewrite list_elem_of_In. done.
Qed.

Lemma walk_dir_under (keys : list string) (h : nat) (p d : string) :
  d ∈ walk keys h p -> dir_under keys p d.
Proof.
  revert p. induction h as [|h IH]; intros p; [by intros ?%elem_of_nil|].
  cbn [walk]. intros (c & Hc & Hd)%elem_of_flat_map.
  apply children_spec in Hc as (k & r & seg & Hk & Hr & Hseg & ->).
  apply strip_prefix_Some in Hr as ->.
  apply upto_sep_Some in Hseg as (s & r' & -> & ->).
  apply elem_of_cons in Hd as [->|Hd].
  - exists (p +:+ (s +:+ "/") +:+ r'), s, r'.
    split_and!; [done..|]. by rewrite !str_app_assoc.
  - destruct (IH _ Hd) as (k' & s' & r'' & Hk' & -> & ->).
    exists (((p +:+ s +:+ "/") +:+ s' +:+ "/") +:+ r''), (s +:+ "/" +:+ s'), r''.
    split_and!; [done| |done]. by rewrite !str_app_assoc.
Qed.

Lemma dir_under_walk (keys : list string) (h : nat) (p d : string) :
  dir_under keys p d ->
  String.length d <= String.length p + h ->
  d ∈ walk keys h p.
Proof.
  revert p. induction h as [|h IH]; intros p (k & s & r & Hk & -> & ->) Hlen.
  { rewrite !str_app_length in Hlen. cbn in Hlen. lia. }
  destruct (upto_sep_app s r) as (s1 & Hseg & Hs).
  assert (Hc : (p +:+ s1 +:+ "/") ∈ children keys p).
  { apply children_spec. exists ((p +:+ s +:+ "/") +:+ r), (s +:+ "/" +:+ r), (s1 +:+ "/").
    split_and!; [done| |done|done].
    rewrite !str_app_assoc. apply strip_prefix_app. }
  cbn [walk]. apply elem_of_flat_map. exists (p +:+ s1 +:+ "/"). split; [done|].
  destruct Hs as [->|[s2 ->]]; [apply list_elem_of_here|].
  apply list_elem_of_further, IH.
  - exists ((p +:+ (s1 +:+ "/" +:+ s2) +:+ "/") +:+ r), s2, r.
    split_and!; [done| |done]. by rewrite !str_app_assoc.
  - rewrite !str_app_length in Hlen. rewrite !str_app_length.
    cbn in Hlen |- *. lia.
Qed.

Lemma dir_under_trans (keys : list string) (c d e : string) :
  dir_under keys c d -> dir_under keys d e -> dir_under keys c e.
Proof.
  intros (_ & s & _ & _ & -> & _) (k & s' & r & Hk & -> & ->).
  exists (((c +:+ s +:+ "/") +:+ s' +:+ "/") +:+ r), (s +:+ "/" +:+ s'), r.
  split_and!; [done| |done]. by rewrite !str_app_assoc.
Qed.

Lemma dir_under_length (keys : list string) (c d : string) :
  dir_under keys c d -> String.length c < String.length d.
Proof.
  intros (_ & s & _ & _ & -> & _). rewrite !str_app_length. cbn. lia.
Qed.

Lemma upto_sep_seg (r seg x : string) :
  Mock.upto_sep r = Some seg -> Mock.upto_sep (seg +:+ x) = Some seg.
Proof.
  revert seg. induction r as [|c r IH]; intros seg; cbn; [done|].
  destruct (Ascii.eqb_spec c sep) as [->|Hc]; [by intros [= <-]|].
  destruct (Mock.upto_sep r) as [seg'|]; [|done]. intros [= <-].
  rewrite str_app_cons. cbn [Mock.upto_sep].
  destruct (Ascii.eqb_spec c sep) as [|_]; [done|].
  by rewrite (IH seg' eq_refl).
Qed.

(** Two directories of one level have nothing in common below them. *)
Lemma children_disjoint (keys : list string) (p c c' e : string) :
  c ∈ children keys p -> c' ∈ children keys p ->
  at_or_under keys c e -> at_or_under keys c' e -> c = c'.
Proof.
  intros (_ & r & seg & _ & _ & Hseg & ->)%children_spec.
  intros (_ & r' & seg' & _ & _ & Hseg' & ->)%children_spec.
  intros Hc Hc'.
  assert (exists x, e = (p +:+ seg) +:+ x) as [x ->].
  { destruct Hc as [->|(_ & s & _ & _ & -> & _)]; [exists ""|by eexists].
    clear. induction (p +:+ seg) as [|a t IH]; [done|].
    rewrite str_app_cons. by f_equal. }
  assert (exists y, (p +:+ seg) +:+ x = (p +:+ seg') +:+ y) as [y Hy].
  { destruct Hc' as [->|(_ & s & _ & _ & -> & _)]; [exists ""|by eexists].
    clear. induction (p +:+ seg') as [|a t IH]; [done|].
    rewrite str_app_cons. by f_equal. }
  rewrite !str_app_assoc in Hy. apply (inj (String.append p)) in Hy.
  f_equal.
  pose proof (upto_sep_seg r seg x Hseg) as H1.
  pose proof (upto_sep_seg r' seg' y Hseg') as H2.
  rewrite Hy, H2 in H1. by injection H1.
Qed.

Lemma NoDup_omap_inj {A B} (f : A -> option B) (l : list A) :
  (forall x y z, f x = Some z -> f y = Some z -> x = y) ->
  NoDup l -> NoDup (omap f l).
Proof.
  intros Hf. induction 1 as [|x l Hx _ IH]; [constructor|]. cbn.
  destruct (f x) as [z|] eqn:Hz; [|done].
  constructor; [|done]. intros (y & Hy & Hfy)%list_elem_of_omap.
  by rewrite (Hf x y z Hz Hfy) in Hx.
Qed.

Lemma NoDup_children (keys : list string) (p : string) : NoDup (children keys p).
Proof.
  apply NoDup_omap_inj; [|apply NoDup_remove_dups].
  intros [k|q] [k'|q'] z; cbn; congruence.
Qed.

Lemma walk_at_or_under (keys : list string) (h : nat) (c e : string) :
  e ∈ c :: walk keys h c -> at_or_under keys c e.
Proof.
  intros [->|He]%elem_of_cons; [by left|]. right. by eapply walk_dir_under.
Qed.

(** What the other directories of a level bring is not below [d], a
    directory at or below the directory [c] of that level. *)
Lemma others_not_under (keys : list string) (h : nat) (p c d e : string)
    (cs : list string) :
  c ∈ children keys p -> c ∉ cs -> cs ⊆ children keys p ->
  at_or_under keys c d ->
  e ∈ flat_map (fun c' => c' :: walk keys h c') cs ->
  ~ dir_under keys d e.
Proof.
  intros Hc Hnot Hsub Hd (c' & Hc' & He)%elem_of_flat_map Hde.
  apply walk_at_or_under in He.
  assert (Hce : at_or_under keys c e).
  { right. destruct Hd as [->|Hd]; [done|]. by eapply dir_under_trans. }
  assert (c = c') as -> by eauto using children_disjoint.
  done.
Qed.

Lemma walk_pre_order (keys : list string) (h : nat) (p : string) :
  height keys <= String.length p + h ->
  forall d, d ∈ walk keys h p ->
    exists before after,
      walk keys h p = before ++ d :: walk keys (height keys) d ++ after
      /\ forall e, e ∈ before ++ after -> ~ dir_under keys d e.
Proof.
  revert p. induction h as [|h IH]; intros p Hh d; [by intros ?%elem_of_nil|].
  cbn [walk]. intros (c & Hc & Hd)%elem_of_flat_map.
  pose proof (NoDup_children keys p) as Hnd.
  pose proof (children_length keys p c Hc) as Hlen.
  destruct (list_elem_of_split _ _ Hc) as (cs1 & cs2 & Hcs).
  assert (Hsub1 : cs1 ⊆ children keys p).
  { intros x Hx. rewrite Hcs. apply elem_of_app. by left. }
  assert (Hsub2 : cs2 ⊆ children keys p).
  { intros x Hx. rewrite Hcs. apply elem_of_app. right.
    by apply list_elem_of_further. }
  rewrite Hcs in Hnd |- *. apply NoDup_app in Hnd as (_ & Hn1 & Hn2).
  apply NoDup_cons in Hn2 as [Hn2 _].
  assert (Hn1' : c ∉ cs1).
  { intros Hin. apply (Hn1 c Hin), list_elem_of_here. }
  rewrite flat_map_app. cbn [flat_map].
  set (B := fun c' => c' :: walk keys h c') in *.
  apply elem_of_cons in Hd as [->|Hd].
  - exists (flat_map B cs1), (flat_map B cs2).
    rewrite (walk_height keys h c) by lia. split; [done|].
    intros e [He|He]%elem_of_app.
    + exact (others_not_under keys h p c c e cs1 Hc Hn1' Hsub1 (or_introl eq_refl) He).
    + exact (others_not_under keys h p c c e cs2 Hc Hn2 Hsub2 (or_introl eq_refl) He).
  - destruct (IH c ltac:(lia) d Hd) as (b' & a' & Hw & Hba).
    exists (flat_map B cs1 ++ c :: b'), (a' ++ flat_map B cs2).
    split.
    { rewrite Hw. rewrite <-!app_assoc. cbn. do 2 f_equal.
      rewrite <-app_assoc. cbn. by rewrite <-app_assoc. }
    pose proof (walk_dir_under keys h c d Hd) as Hcd.
    intros e He.
    rewrite <-app_assoc in He. cbn in He.
    apply elem_of_app in He as [He|He].
    { exact (others_not_under keys h p c d e cs1 Hc Hn1' Hsub1 (or_intror Hcd) He). }
    apply elem_of_cons in He as [->|He].
    { intros Hdc. apply dir_under_length in Hcd, Hdc. lia. }
    rewrite app_assoc in He. apply elem_of_app in He as [He|He].
    { by apply Hba. }
    exact (others_not_under keys h p c d e cs2 Hc Hn2 Hsub2 (or_intror Hcd) He).
Qed.

Lemma NoDup_flat_map {A B} (f : A -> list B) (l : list A) :
  NoDup l ->
  (forall x, x ∈ l -> NoDup (f x)) ->
  (forall x y e, x ∈ l -> y ∈ l -> e ∈ f x -> e ∈ f y -> x = y) ->
  NoDup (flat_map f l).
Proof.
  induction 1 as [|x l Hx Hl IH]; intros Hf Hdisj; [constructor|]. cbn.
  apply NoDup_app. split_and!.
  - apply Hf, list_elem_of_here.
  - intros e He (y & Hy & Hey)%elem_of_flat_map.
    assert (x = y) as ->; [|done].
    apply (Hdisj x y e); [apply list_elem_of_here| |done..].
    by apply list_elem_of_further.
  - apply IH.
    + intros y Hy. by apply Hf, list_elem_of_further.
    + intros y z e Hy Hz. apply Hdisj; by apply list_elem_of_further.
Qed.

Lemma NoDup_walk (keys : list string) (h : nat) (p : string) :
  NoDup (walk keys h p).
Proof.
  revert p. induction h as [|h IH]; intros p; [constructor|]. cbn [walk].
  apply NoDup_flat_map.
  - apply NoDup_children.
  - intros c _. constructor; [|apply IH].
    intros Hc%walk_dir_under%dir_under_length. lia.
  - intros c c' e Hc Hc' He He'.
    eauto using children_disjoint, walk_at_or_under.
Qed.

(** C5: for a bucket of the in-memory service (a finite keyspace) and
    any page size of at least one entry, [iterate_dirs] comes to an end:
    with a bound on the depth of its listing calls that the keyspace
    gives, the recursion and the loop over the pages are both done and
    the generator is exhausted normally.  The sequence it yields is the
    depth-first pre-order walk of the directories below the prefix: the
    directories one level below the prefix in listing order, each
    followed at once by the walk of what is below it and only then by
    its next sibling.  In it is every directory below the prefix, once,
    and nothing else. *)
Theorem iterate_dirs_depth_first
    (st : Mock.state) (bucket prefix : string) (m : gmap string bytes) (fuel : nat) :
  Mock.buckets st !! bucket = Some m ->
  0 < Mock.page_limit st ->
  let keys := Mock.sorted_keys m in
  S (height keys) * S (size m) <= fuel ->
  let r := iterate_dirs fuel bucket prefix st in
  result r = Returned tt
  /\ yields (trace r) = walk keys (height keys) prefix
  /\ yields (trace r)
     = flat_map (fun d => d :: walk keys (height keys) d) (children keys prefix)
  /\ pre_order keys (yields (trace r))
  /\ (forall d, d ∈ yields (trace r) <-> dir_under keys prefix d)
  /\ NoDup (yields (trace r)).
Proof.
  intros Hm Hlimit keys Hfuel. cbn zeta.
  assert (Hn : 0 < Mock.page_size None st).
  { unfold Mock.page_size. cbn. lia. }
  destruct (mock_dirs_run st bucket m Hm Hn (height keys) prefix fuel)
    as (Hr & Hy & _); [fold keys; lia| |].
  { rewrite length_sorted_keys. exact Hfuel. }
  fold keys in Hy. unfold iterate_dirs. rewrite Hy.
  assert (Hw : walk keys (S (height keys)) prefix = walk keys (height keys) prefix).
  { apply walk_stable. lia. }
  split_and!.
  - done.
  - done.
  - done.
  - rewrite Hw. intros d Hd. apply walk_pre_order; [lia|done].
  - rewrite Hw. intros d. split; [apply walk_dir_under|].
    intros Hd. apply dir_under_walk; [done|].
    destruct Hd as (k & s & r & Hk & -> & ->).
    assert (String.length ((prefix +:+ s +:+ "/") +:+ r) <= height keys) as Hle.
    { apply max_list_elem_of_le, list_elem_of_fmap. by eexists. }
    rewrite !str_app_length in Hle. rewrite !str_app_length. lia.
  - apply NoDup_walk.
Qed.

End MockDirs.

(** ** The example of the three keys *)

(** C4: for a bucket that holds exactly the keys [a/b], [a/c] and [d],
    whatever their bodies, [iterate_dirs] on the empty prefix yields the
    one directory [a/]: its run is the listing of the empty prefix, the
    yield of [a/], and then the run of [iterate_dirs] on [a/], whose one
    listing has no common prefixes and which yields nothing. *)
Theorem iterate_dirs_three_keys (body_ab body_ac body_d : bytes) (fuel : nat) :
  let st := Mock.one_bucket "bucket"
              [("a/b", body_ab); ("a/c", body_ac); ("d", body_d)] 1000 in
  let r := iterate_dirs (E := Mock.env) (S (S fuel)) "bucket" "" st in
  let below := iterate_dirs (E := Mock.env) (S fuel) "bucket" "a/" st in
  result r = Returned tt
  /\ yields (trace r) = ["a/"]
  /\ result below = Returned tt
  /\ yields (trace below) = []
  /\ (exists page, trace r
        = EvListObjectsV2 (dirs_request "bucket" "" "") (inr page)
            :: Yield "a/" :: trace below
        /\ CommonPrefixes page = Some [{| Prefix := "a/" |}]
        /\ NextContinuationToken page = None)
  /\ (exists page, trace below
        = [EvListObjectsV2 (dirs_request "bucket" "a/" "") (inr page)]
        /\ CommonPrefixes page = None
        /\ (Key <$> default [] (Contents page)) = ["a/b"; "a/c"]
        /\ NextContinuationToken page = None).
Proof.
  cbn zeta. split_and!; [by vm_compute..| |].
  - eexists. split_and!; by vm_compute.
  - eexists. split_and!; by vm_compute.
Qed.

(** ** Objects written, read and copied *)

Section MockObjects.

Local Existing Instance Mock.env | 0.

Lemma decode_utf8_encode (content : string) :
  Mock.utf8_valid_from Mock.Start (Mock.encode_utf8 content) = true ->
  Mock.decode (Mock.encode_utf8 content) "utf-8" = inr content.
Proof.
  intros Hv. unfold Mock.decode. cbn. rewrite Hv. unfold Mock.encode_utf8.
  by rewrite string_of_list_byte_of_string.
Qed.

(** C6: in a bucket of the in-memory service, [write_file] and then
    [read_file] of the same key, with a decoding that undoes the
    encoding of the write on that content, returns the content that was
    written. *)
Theorem write_then_read_round_trip
    (st : Mock.state) (bucket key content decode : string) :
  is_Some (Mock.buckets st !! bucket) ->
  truthy decode = true ->
  Mock.decode (Mock.encode_utf8 content) decode = inr content ->
  let written := write_file bucket key content st in
  let read := read_file bucket key decode (final written) in
  result written = Returned tt
  /\ result read = Returned (Str content)
  /\ final read = final written.
Proof.
  intros [m Hm] Hd Hcodec. cbn zeta.
  unfold write_file, perform. cbn [object_put Mock.env].
  unfold Mock.put, Mock.put_bytes. rewrite Hm. cbn [result final].
  split; [done|].
  unfold read_file. erewrite bind_returned.
  2: { unfold perform. cbn [object_get Mock.env]. unfold Mock.get.
       cbn [Mock.buckets Mock.with_buckets].
       rewrite lookup_insert_eq, lookup_insert_eq. reflexivity. }
  rewrite Hd. cbn [result final trace].
  erewrite bind_returned;
    [|cbn [bytes_decode Mock.env]; rewrite Hcodec; reflexivity].
  done.
Qed.

(** [posixpath.join] drops its first argument when the second starts
    with the separator: the copy source of such a key does not name the
    source bucket, and copies from any two buckets are the same call. *)
Lemma copy_file_ignores_bucket {E : Env}
    (bucket1 bucket2 key trg_bucket trg_key : string) :
  startswith_sep key = true ->
  join bucket1 key = key
  /\ copy_file bucket1 key trg_bucket trg_key
     = copy_file bucket2 key trg_bucket trg_key.
Proof.
  intros Hk. unfold copy_file, join. by rewrite Hk.
Qed.

(** C7 at a source key that starts with "/": [copy_file] returns
    normally, and reading the target gives the content of another
    object, not the content of the source. *)
Theorem copy_file_leading_slash_key :
  let copied :=
    copy_file "logs" "/2024/app.log" "backup" "app.log" Examples.slash_key_world in
  join "logs" "/2024/app.log" = "/2024/app.log"
  /\ result copied = Returned tt
  /\ result (read_file "logs" "/2024/app.log" "utf-8" (final copied))
     = Returned (Str "right")
  /\ result (read_file "backup" "app.log" "utf-8" (final copied))
     = Returned (Str "wrong").
Proof. cbn zeta. split_and!; by vm_compute. Qed.

Lemma split_sep_app (a b : string) :
  contains_sep a = false -> Mock.split_sep (a +:+ "/" +:+ b) = Some (a, b).
Proof.
  induction a as [|c a IH]; intros Ha; [done|].
  cbn in Ha. apply orb_false_elim in Ha as [Hc Ha].
  rewrite str_app_cons. cbn [Mock.split_sep]. rewrite Hc, (IH Ha). done.
Qed.

Lemma endswith_sep_contains (a : string) :
  contains_sep a = false -> endswith_sep a = false.
Proof.
  induction a as [|c a IH]; [done|]. cbn.
  intros [Hc Ha]%orb_false_elim. destruct a; [done|]. by apply IH.
Qed.

Lemma parse_copy_source_join (bucket key : string) :
  bucket <> "" -> contains_sep bucket = false -> startswith_sep key = false ->
  Mock.parse_copy_source (join bucket key) = Some (bucket, key).
Proof.
  intros Hne Hb Hk. unfold join. rewrite Hk, (endswith_sep_contains _ Hb).
  destruct bucket as [|c bucket]; [done|]. cbn [truthy negb orb].
  unfold Mock.parse_copy_source. rewrite str_app_cons.
  cbn in Hb. apply orb_false_elim in Hb as [Hc Hb]. rewrite Hc.
  rewrite <-str_app_cons. apply split_sep_app. cbn. by rewrite Hc, Hb.
Qed.

(** A copy source in which the SDK finds no version id is taken whole. *)
Lemma split_version_none (s : string) :
  (Mock.split_version s).2 = None -> (Mock.split_version s).1 = s.
Proof.
  induction s as [|c s IH]; cbn [Mock.split_version].
  - by destruct (match Mock.strip_prefix "?versionId=" "" with
                 | Some v => Mock.version_tail v
                 | None => false
                 end).
  - destruct (Mock.strip_prefix "?versionId=" (String c s)) as [v|] eqn:Hv.
    + destruct (Mock.version_tail v); [done|].
      destruct (Mock.split_version s) as [a w]. cbn in *. intros ->. by rewrite IH.
    + destruct (Mock.split_version s) as [a w]. cbn in *. intros ->. by rewrite IH.
Qed.

(** Where the source key does not start with "/" and the SDK finds no
    version id at the end of the copy source (and the bucket name is a
    name: not empty, no "/"), a copy that returns leaves at the target
    what is at the source. *)
Lemma copy_then_read_plain_key
    (st : Mock.state) (src_bucket src_key trg_bucket trg_key decode : string) :
  src_bucket <> "" -> contains_sep src_bucket = false ->
  startswith_sep src_key = false ->
  (Mock.split_version (join src_bucket src_key)).2 = None ->
  let copied := copy_file src_bucket src_key trg_bucket trg_key st in
  result copied = Returned tt ->
  result (read_file trg_bucket trg_key decode (final copied))
  = result (read_file src_bucket src_key decode (final copied)).
Proof.
  intros Hne Hb Hk Hv. cbn zeta. unfold copy_file, perform.
  cbn [object_copy_from Mock.env]. unfold Mock.copy_from.
  pose proof (split_version_none _ Hv) as Hs.
  destruct (Mock.split_version (join src_bucket src_key)) as [source version].
  cbn in Hv, Hs. subst source version.
  rewrite (parse_copy_source_join _ _ Hne Hb Hk).
  cbn [Mock.get_version]. unfold Mock.get.
  destruct (Mock.buckets st !! src_bucket) as [ms|] eqn:Hms; [|done].
  destruct (ms !! src_key) as [data|] eqn:Hdata; [|done].
  case_bool_decide as Hself; [done|].
  unfold Mock.put_bytes.
  destruct (Mock.buckets st !! trg_bucket) as [mt|] eqn:Hmt; [|done].
  cbn [result final]. intros _.
  assert (Hget : forall b k,
             (b = trg_bucket /\ k = trg_key) \/ (b = src_bucket /\ k = src_key) ->
             Mock.get b k
               (Mock.with_buckets st
                  (<[trg_bucket := <[trg_key := data]> mt]> (Mock.buckets st)))
             = (inr data,
                Mock.with_buckets st
                  (<[trg_bucket := <[trg_key := data]> mt]> (Mock.buckets st)))).
  { intros b k Hbk. unfold Mock.get. cbn [Mock.buckets Mock.with_buckets].
    destruct (decide (b = trg_bucket)) as [->|Hneq].
    - rewrite lookup_insert_eq.
      destruct (decide (k = trg_key)) as [->|Hnk].
      + by rewrite lookup_insert_eq.
      + rewrite lookup_insert_ne by done.
        destruct Hbk as [[_ ->]|[Hb' ->]]; [done|].
        rewrite Hb' in Hmt. rewrite Hms in Hmt. injection Hmt as <-.
        by rewrite Hdata.
    - rewrite lookup_insert_ne by done.
      destruct Hbk as [[-> _]|[-> ->]]; [done|]. by rewrite Hms, Hdata. }
  unfold read_file.
  erewrite !bind_returned.
  2: { unfold perform. cbn [object_get Mock.env]. rewrite Hget by tauto.
       reflexivity. }
  2: { unfold perform. cbn [object_get Mock.env]. rewrite Hget by tauto.
       reflexivity. }
  done.
Qed.

End MockObjects.

(** * The theorems at concrete inputs *)

(** [iterate_keys_two_pages] for a bucket of 10,001 keys. *)
Lemma iterate_keys_two_pages_witness :
  (Mock.buckets Examples.many_keys_world !! "bk" = Some Examples.many_objects
   /\ Z.of_nat (size Examples.many_objects) = 10001%Z
   /\ Examples.many_objects !! "" = None
   /\ (10000 <= Z.of_nat (Mock.page_limit Examples.many_keys_world))%Z
   /\ 2 <= 2)
  /\ (let r := iterate_keys (E := Mock.env) 2 "bk" "" Examples.many_keys_world in
      result r = Returned tt
      /\ length (listing_calls (trace r)) = 2
      /\ yields (trace r) = Mock.sorted_keys Examples.many_objects
      /\ NoDup (yields (trace r))
      /\ (forall k, k ∈ yields (trace r) <-> k ∈ dom Examples.many_objects)).
Proof.
  assert (h1 : Mock.buckets Examples.many_keys_world !! "bk"
               = Some Examples.many_objects) by reflexivity.
  assert (h2 : Z.of_nat (size Examples.many_objects) = 10001%Z)
    by (vm_compute; reflexivity).
  assert (h3 : Examples.many_objects !! "" = None) by (vm_compute; reflexivity).
  assert (h4 : (10000 <= Z.of_nat (Mock.page_limit Examples.many_keys_world))%Z)
    by (vm_compute; discriminate).
  assert (h5 : 2 <= 2) by lia.
  split; [exact (conj h1 (conj h2 (conj h3 (conj h4 h5))))|].
  exact (iterate_keys_two_pages Examples.many_keys_world "bk" Examples.many_objects 2
           h1 h2 h3 h4 h5).
Defined.

(** [iterate_keys_stops_iff_not_truncated] on a script of two pages: the
    second answer is not truncated and ends the run. *)
Lemma iterate_keys_stops_iff_not_truncated_witness :
  let r := iterate_keys (E := Scripted.env) 5 "bk" "" Examples.two_pages in
  (listing_calls (trace r) !! 1
   = Some (keys_request "bk" "" "b", inr (Scripted.keys_page ["c"] false))
   /\ IsTruncated (Scripted.keys_page ["c"] false) = false)
  /\ length (listing_calls (trace r)) = 2 /\ result r = Returned tt.
Proof.
  cbn zeta. split; [split; reflexivity|].
  apply (proj1 (iterate_keys_stops_iff_not_truncated (E := Scripted.env)
                  5 "bk" "" Examples.two_pages)
           1 (keys_request "bk" "" "b") (Scripted.keys_page ["c"] false));
    reflexivity.
Defined.

(** [iterate_keys_truncated_empty_page] on a script whose second page is
    truncated and empty. *)
Lemma iterate_keys_truncated_empty_page_witness :
  let r := iterate_keys (E := Scripted.env) 5 "bk" "" Examples.empty_truncated_page in
  (listing_calls (trace r) !! 1
   = Some (keys_request "bk" "" "a", inr (Scripted.keys_page [] true))
   /\ IsTruncated (Scripted.keys_page [] true) = true
   /\ default [] (Contents (Scripted.keys_page [] true)) = [])
  /\ length (listing_calls (trace r)) = 2 /\ result r = Raised IndexError.
Proof.
  cbn zeta. split; [split_and!; reflexivity|].
  apply (proj1 (iterate_keys_truncated_empty_page (E := Scripted.env)
                  5 "bk" "" Examples.empty_truncated_page)
           1 (keys_request "bk" "" "a") (Scripted.keys_page [] true));
    reflexivity.
Defined.

(** [iterate_dirs_pages_on] on a script whose first page has no common
    prefixes and the token [t1]: the next call passes [t1]. *)
Lemma iterate_dirs_pages_on_witness :
  let r := iterate_dirs (E := Scripted.env) 2 "bk" "" Examples.token_pages in
  (trace r
   = [] ++ EvListObjectsV2 (dirs_request "bk" "" "")
             (inr (Scripted.dirs_page None (Some "t1")))
        :: [EvListObjectsV2 (dirs_request "bk" "" "t1")
              (inr (Scripted.dirs_page (Some []) None))]
   /\ default [] (CommonPrefixes (Scripted.dirs_page None (Some "t1"))) = []
   /\ NextContinuationToken (Scripted.dirs_page None (Some "t1")) = Some "t1")
  /\ (exists x,
        EvListObjectsV2 (dirs_request "bk" "" "t1")
          (inr (Scripted.dirs_page (Some []) None))
        = EvListObjectsV2 (next_dirs_request (dirs_request "bk" "" "") "t1") x)
  /\ req_ContinuationToken (next_dirs_request (dirs_request "bk" "" "") "t1")
     = Some "t1".
Proof.
  cbn zeta. split; [split_and!; reflexivity|]. split; [|reflexivity].
  exact (proj1 (iterate_dirs_pages_on (E := Scripted.env) 2 "bk" "" Examples.token_pages)
           [] (dirs_request "bk" "" "") (Scripted.dirs_page None (Some "t1"))
           [EvListObjectsV2 (dirs_request "bk" "" "t1")
              (inr (Scripted.dirs_page (Some []) None))]
           "t1" eq_refl eq_refl eq_refl).
Defined.

(** [iterate_dirs_continues_with_token] on a script whose first page has
    no common prefixes and the token [t1]: the next call passes [t1]. *)
Lemma iterate_dirs_continues_with_token_witness :
  let r := iterate_dirs (E := Scripted.env) 2 "bk" "" Examples.token_pages in
  (trace r
   = [] ++ EvListObjectsV2 (dirs_request "bk" "" "")
             (inr (Scripted.dirs_page None (Some "t1")))
        :: [EvListObjectsV2 (dirs_request "bk" "" "t1")
              (inr (Scripted.dirs_page (Some []) None))]
   /\ default [] (CommonPrefixes (Scripted.dirs_page None (Some "t1"))) = []
   /\ NextContinuationToken (Scripted.dirs_page None (Some "t1")) = Some "t1"
   /\ "t1" <> "")
  /\ (exists x,
        EvListObjectsV2 (dirs_request "bk" "" "t1")
          (inr (Scripted.dirs_page (Some []) None))
        = EvListObjectsV2 (next_request_with_token (dirs_request "bk" "" "") "t1") x)
  /\ req_ContinuationToken (next_request_with_token (dirs_request "bk" "" "") "t1")
     = Some "t1".
Proof.
  cbn zeta.
  assert (h : "t1" <> "") by discriminate.
  split; [split_and!; [reflexivity..|exact h]|]. split; [|reflexivity].
  exact (proj1 (iterate_dirs_continues_with_token (E := Scripted.env) 2 "bk" ""
                  Examples.token_pages)
           [] (dirs_request "bk" "" "") (Scripted.dirs_page None (Some "t1"))
           [EvListObjectsV2 (dirs_request "bk" "" "t1")
              (inr (Scripted.dirs_page (Some []) None))]
           "t1" eq_refl eq_refl eq_refl h).
Defined.

(** [iterate_dirs_depth_first] on a small tree. *)
Lemma iterate_dirs_depth_first_witness :
  (Mock.buckets Examples.tree_world !! "bk" = Some Examples.tree_objects
   /\ 0 < Mock.page_limit Examples.tree_world
   /\ S (height (Mock.sorted_keys Examples.tree_objects))
      * S (size Examples.tree_objects) <= 48)
  /\ yields (trace (iterate_dirs (E := Mock.env) 48 "bk" "" Examples.tree_world))
     = ["a/"; "a/b/"; "a/b/c/"; "x/"; "x/w/"; "x/y/"]
  /\ pre_order (Mock.sorted_keys Examples.tree_objects)
       (yields (trace (iterate_dirs (E := Mock.env) 48 "bk" "" Examples.tree_world))).
Proof.
  assert (h1 : Mock.buckets Examples.tree_world !! "bk" = Some Examples.tree_objects)
    by reflexivity.
  assert (h2 : 0 < Mock.page_limit Examples.tree_world) by (vm_compute; lia).
  assert (h3 : S (height (Mock.sorted_keys Examples.tree_objects))
               * S (size Examples.tree_objects) <= 48) by (vm_compute; lia).
  split; [exact (conj h1 (conj h2 h3))|].
  pose proof (iterate_dirs_depth_first Examples.tree_world "bk" ""
                Examples.tree_objects 48 h1 h2 h3) as (_ & Hy & _ & Hpre & _).
  split; [rewrite Hy; vm_compute; reflexivity|exact Hpre].
Defined.

(** [write_then_read_round_trip] for a text with a character of two
    bytes. *)
Lemma write_then_read_round_trip_witness :
  (is_Some (Mock.buckets Examples.tmp_world !! "bk")
   /\ truthy "utf-8" = true
   /\ Mock.decode (Mock.encode_utf8 "héllo") "utf-8" = inr "héllo")
  /\ result (read_file (E := Mock.env) "bk" "greeting" "utf-8"
               (final (write_file (E := Mock.env) "bk" "greeting" "héllo"
                         Examples.tmp_world)))
     = Returned (Str "héllo").
Proof.
  assert (h1 : is_Some (Mock.buckets Examples.tmp_world !! "bk"))
    by (eexists; reflexivity).
  assert (h2 : truthy "utf-8" = true) by reflexivity.
  assert (h3 : Mock.decode (Mock.encode_utf8 "héllo") "utf-8" = inr "héllo")
    by (vm_compute; reflexivity).
  split; [exact (conj h1 (conj h2 h3))|].
  exact (proj1 (proj2 (write_then_read_round_trip Examples.tmp_world
                         "bk" "greeting" "héllo" "utf-8" h1 h2 h3))).
Defined.

(** [sdk_failures_surface_unmodified] for the read of a key that is not
    there: the error of the service is the error of [read_file]. *)
Lemma sdk_failures_surface_unmodified_witness :
  let r := read_file (E := Mock.env) "bk" "missing" "utf-8" Examples.tmp_world in
  (EvObjectGet "bk" "missing" (inl (ClientError "NoSuchKey")) ∈ trace r
   /\ sdk_failure (EvObjectGet "bk" "missing" (inl (ClientError "NoSuchKey")))
      = Some (ClientError "NoSuchKey"))
  /\ result r = Raised (ClientError "NoSuchKey")
  /\ last (trace r) = Some (EvObjectGet "bk" "missing" (inl (ClientError "NoSuchKey"))).
Proof.
  cbn zeta.
  assert (h1 : EvObjectGet "bk" "missing" (inl (ClientError "NoSuchKey"))
               ∈ trace (read_file (E := Mock.env) "bk" "missing" "utf-8"
                          Examples.tmp_world)) by apply list_elem_of_here.
  split; [exact (conj h1 eq_refl)|].
  exact (proj1 (sdk_failures_surface_unmodified (E := Mock.env))
           "bk" "missing" "utf-8" Examples.tmp_world _ _ h1 eq_refl).
Defined.

(** [download_file_local_dir] for a bare file name and for a file under
    [/tmp]. *)
Lemma download_file_local_dir_witness :
  (contains_sep "file.txt" = false
   /\ @os_path_exists Mock.env "" Examples.tmp_world = false
   /\ @os_makedirs Mock.env "" Examples.tmp_world
      = (inl (FileNotFoundError ""), Examples.tmp_world)
   /\ @os_path_exists Mock.env (dirname "/tmp/file.txt") Examples.tmp_world = true)
  /\ download_file (E := Mock.env) "bk" "k" "file.txt" Examples.tmp_world
     = Run (E := Mock.env) [EvPathExists "" false; EvMakedirs "" (inl (FileNotFoundError ""))]
           (Raised (FileNotFoundError "")) Examples.tmp_world
  /\ trace (download_file (E := Mock.env) "bk" "k" "/tmp/file.txt" Examples.tmp_world)
     = [EvPathExists "/tmp" true; EvDownloadFile "bk" "k" "/tmp/file.txt" (inr tt)].
Proof.
  assert (h1 : contains_sep "file.txt" = false) by reflexivity.
  assert (h2 : @os_path_exists Mock.env "" Examples.tmp_world = false)
    by reflexivity.
  assert (h3 : @os_makedirs Mock.env "" Examples.tmp_world
               = (inl (FileNotFoundError ""), Examples.tmp_world)) by reflexivity.
  assert (h4 : @os_path_exists Mock.env (dirname "/tmp/file.txt")
                 Examples.tmp_world = true) by (vm_compute; reflexivity).
  split; [exact (conj h1 (conj h2 (conj h3 h4)))|]. split.
  - exact (proj2 (proj1 (download_file_local_dir (E := Mock.env)
                           "bk" "k" "file.txt" Examples.tmp_world) h1)
             _ _ h2 h3).
  - rewrite (proj2 (download_file_local_dir (E := Mock.env)
                      "bk" "k" "/tmp/file.txt" Examples.tmp_world) h4).
    vm_compute. reflexivity.
Defined.


(** * Further properties *)

(** ** The cursor and the yields of [iterate_keys], for any client *)

Section KeysTrace.

Context {E : Env}.

Lemma keys_cursor_from (fuel : nat) (b p s : string) (w : world) :
  let calls := listing_calls (trace (iterate_keys_from fuel b p s w)) in
  (forall q x, calls !! 0 = Some (q, x) -> q = keys_request b p s)
  /\ (forall i q x q' x',
        calls !! i = Some (q, x) -> calls !! S i = Some (q', x') ->
        exists resp k,
          x = inr resp /\ IsTruncated resp = true
          /\ last (Key <$> default [] (Contents resp)) = Some k
          /\ q' = keys_request (req_Bucket q) (req_Prefix q) k).
Proof.
  revert s w. induction fuel as [|fuel IH]; intros s w; cbn zeta.
  { cbn. split; [done|]. by intros []. }
  rewrite iterate_keys_from_S.
  destruct (client_list_objects_v2 (keys_request b p s) w) as [[e|resp] w1].
  { cbn. split; [by intros ?? [= <- _]|]. by intros [|?]. }
  cbn zeta. destruct (IsTruncated resp) eqn:Htr.
  - destruct (last (Key <$> default [] (Contents resp))) as [k|] eqn:Hlast.
    + destruct (IH k w1) as (IH0 & IH1). cbn [trace].
      rewrite listing_calls_turn. split; [by intros ?? [= <- _]|].
      intros [|i] q x q' x' Hi Hi'; cbn in Hi, Hi'.
      * injection Hi as <- <-. exists resp, k. split_and!; [done..|].
        by apply (IH0 q' x').
      * by apply (IH1 i q x q' x').
    + cbn [trace]. rewrite listing_calls_last_turn.
      split; [by intros ?? [= <- _]|]. by intros [|?].
  - cbn [trace]. rewrite listing_calls_last_turn.
    split; [by intros ?? [= <- _]|]. by intros [|?].
Qed.

(** X1: every listing call of [iterate_keys] is a flat listing of the
    given bucket and prefix that asks for 10000 keys and passes no token;
    the first call starts after the empty string, and each later call
    starts after the last key of the page before it, which was
    truncated. *)
Theorem iterate_keys_cursor_chain (fuel : nat) (bucket prefix : string) (w : world) :
  let calls := listing_calls (trace (iterate_keys fuel bucket prefix w)) in
  (forall i q x,
      calls !! i = Some (q, x) ->
      req_Bucket q = bucket /\ req_Prefix q = prefix
      /\ req_MaxKeys q = Some 10000%Z /\ req_Delimiter q = None
      /\ req_ContinuationToken q = None)
  /\ (forall q x, calls !! 0 = Some (q, x) -> req_StartAfter q = Some "")
  /\ (forall i q x q' x',
        calls !! i = Some (q, x) -> calls !! S i = Some (q', x') ->
        exists resp,
          x = inr resp /\ IsTruncated resp = true
          /\ req_StartAfter q' = last (Key <$> default [] (Contents resp))).
Proof.
  cbn zeta. unfold iterate_keys.
  destruct (keys_cursor_from fuel bucket prefix "" w) as (H0 & H1).
  cbn zeta in H0, H1.
  assert (Hall : forall i q x,
             listing_calls (trace (iterate_keys_from fuel bucket prefix "" w)) !! i
             = Some (q, x) ->
             exists k, q = keys_request bucket prefix k).
  { induction i as [|i IHi]; intros q x Hi.
    - exists "". by apply (H0 q x).
    - destruct (lookup_lt_is_Some_2
                  (listing_calls (trace (iterate_keys_from fuel bucket prefix "" w))) i)
        as [[q0 x0] Hq0].
      { apply lookup_lt_Some in Hi. lia. }
      destruct (IHi q0 x0 Hq0) as [k0 ->].
      destruct (H1 i _ x0 q x Hq0 Hi) as (resp & k & _ & _ & _ & ->).
      by exists k. }
  split_and!.
  - intros i q x Hi. by destruct (Hall i q x Hi) as [k ->].
  - intros q x Hq. by rewrite (H0 q x Hq).
  - intros i q x q' x' Hi Hi'.
    destruct (H1 i q x q' x' Hi Hi') as (resp & k & -> & Htr & Hlast & ->).
    exists resp. by rewrite Hlast.
Qed.

(** X2: what [iterate_keys] yields is what it received: the keys of the
    pages of its listing calls, page after page and in the order of each
    page, whether the run then ends normally, fails or goes on. *)
Theorem iterate_keys_yields_received (fuel : nat) (bucket prefix : string) (w : world) :
  let r := iterate_keys fuel bucket prefix w in
  yields (trace r) = keys_received (listing_calls (trace r)).
Proof.
  cbn zeta. unfold iterate_keys. generalize "" as s. revert w.
  induction fuel as [|fuel IH]; intros w s; [done|].
  rewrite iterate_keys_from_S.
  destruct (client_list_objects_v2 (keys_request bucket prefix s) w) as [[e|resp] w1];
    [done|].
  cbn zeta.
  assert (Hlast : forall l : list string,
             yields (EvListObjectsV2 (keys_request bucket prefix s) (inr resp)
                       :: (Yield <$> l)) = l).
  { intros l. rewrite <-(app_nil_r (Yield <$> l)), yields_turn. apply app_nil_r. }
  destruct (IsTruncated resp).
  - destruct (last (Key <$> default [] (Contents resp))) as [k|].
    + cbn [trace]. rewrite yields_turn, listing_calls_turn. cbn. by rewrite IH.
    + cbn [trace]. rewrite Hlast, listing_calls_last_turn. cbn.
      by rewrite app_nil_r.
  - cbn [trace]. rewrite Hlast, listing_calls_last_turn. cbn.
    by rewrite app_nil_r.
Qed.

End KeysTrace.

(** ** The calls and the yields of [iterate_dirs], for any client *)

Section DirsTrace.

Context {E : Env}.

Lemma descends_silent {A} b (t : list event) (o : outcome A) (w : world) :
  (forall ev, ev ∈ t -> yields [ev] = []) -> descends b (Run t o w).
Proof.
  intros Ht t1 d t2 Htr. cbn in Htr.
  specialize (Ht (Yield d)). rewrite Htr in Ht.
  discriminate Ht. apply elem_of_app. right. apply list_elem_of_here.
Qed.

Lemma descends_bind {A B} b (m : M A) (k : A -> M B) w :
  descends b (m w) ->
  (forall a, result (m w) = Returned a -> descends b (k a (final (m w)))) ->
  descends b (bind m k w).
Proof.
  intros Hm Hk. unfold bind.
  destruct (m w) as [ta [a|e|] w1] eqn:Hmw; cbn [result trace final] in *.
  2: { intros t1 d t2 Htr. specialize (Hm t1 d t2 Htr).
       destruct t2; [done|exact Hm]. }
  2: { intros t1 d t2 Htr. specialize (Hm t1 d t2 Htr).
       destruct t2; [done|exact Hm]. }
  specialize (Hk a eq_refl).
  intros t1 d t2 Htr. cbn [trace result] in *.
  apply app_eq_inv in Htr as [(l & Hta & Hl)|(l & -> & Htb)].
  - destruct l as [|ev l]; cbn in Hl.
    + rewrite app_nil_r in Hta. subst ta. by apply (Hk [] d t2).
    + injection Hl as <- ->.
      specialize (Hm t1 d l Hta). destruct l as [|ev' l]; [done|exact Hm].
  - by apply (Hk l d t2).
Qed.

Lemma descends_for_each {A} b (l : list A) (body : A -> M unit) w :
  (forall x w', descends b (body x w')) -> descends b (for_each l body w).
Proof.
  intros Hbody. revert w. induction l as [|x l IH]; intros w; cbn [for_each].
  - by apply descends_silent; intros ? ?%elem_of_nil.
  - apply descends_bind; [apply Hbody|]. intros _ _. apply IH.
Qed.

Lemma descends_iterate_dirs_from (fuel : nat) (b p t : string) (w : world) :
  descends b (iterate_dirs_from fuel b p t w).
Proof.
  revert p t w. induction fuel as [|fuel IH]; intros p t w.
  { by apply descends_silent; intros ? ?%elem_of_nil. }
  cbn [iterate_dirs_from]. apply descends_bind.
  { assert (Hcall : forall q, descends b (call_list_objects_v2 q w)).
    { intros q. unfold call_list_objects_v2, perform.
      destruct (client_list_objects_v2 q w) as [r w1].
      apply descends_silent. by intros ? ->%list_elem_of_singleton. }
    destruct (truthy t); apply Hcall. }
  intros resp _. apply descends_bind.
  - destruct (CommonPrefixes resp) as [subdirs|];
      [|by apply descends_silent; intros ? ?%elem_of_nil].
    apply descends_for_each. intros x w' t1 d t2.
    erewrite bind_returned; [|reflexivity]. cbn [trace result app].
    destruct t1 as [|ev t1]; cbn; intros [= Hd Htr].
    + subst d. destruct fuel as [|fuel]; [by subst t2|].
      destruct (dirs_first_call fuel b (Prefix x) "" w') as (tl & Htl).
      rewrite Htl in Htr. subst t2. by eexists.
    + by apply (IH (Prefix x) "" w' t1 d t2).
  - intros _ _. destruct (NextContinuationToken resp); [apply IH|].
    by apply descends_silent; intros ? ?%elem_of_nil.
Qed.

(** X3: for any client, each directory that [iterate_dirs] yields is
    descended into at once: the event after the yield of [d] is the
    listing call for the prefix [d] in the same bucket, with the
    delimiter "/" and without a continuation token.  Only running out of
    the bound on the calls ends a run at a yield. *)
Theorem iterate_dirs_descends (fuel : nat) (bucket prefix : string) (w : world) :
  let r := iterate_dirs fuel bucket prefix w in
  forall t1 d t2,
    trace r = t1 ++ Yield d :: t2 ->
    match t2 with
    | [] => result r = OutOfFuel
    | ev :: _ =>
        exists x,
          ev = EvListObjectsV2
                 {| req_Bucket := bucket; req_Prefix := d;
                    req_Delimiter := Some "/"; req_MaxKeys := None;
                    req_StartAfter := None; req_ContinuationToken := None |} x
    end.
Proof. cbn zeta. apply descends_iterate_dirs_from. Qed.

Lemma received_app (t1 t2 : list event) :
  prefixes_received (listing_calls (t1 ++ t2))
  = prefixes_received (listing_calls t1) ++ prefixes_received (listing_calls t2).
Proof. unfold prefixes_received. by rewrite listing_calls_app, flat_map_app. Qed.

(** The [for] loop of a page yields the common prefixes of the page and
    what the runs below them yield. *)
Lemma descend_received (fuel : nat) (b : string) :
  (forall p t w,
      let r := iterate_dirs_from fuel b p t w in
      yields (trace r) ⊆+ prefixes_received (listing_calls (trace r))
      /\ (result r = Returned tt ->
          yields (trace r) ≡ₚ prefixes_received (listing_calls (trace r)))) ->
  forall resp w,
    let r := descend fuel b resp w in
    let here := Prefix <$> default [] (CommonPrefixes resp) in
    yields (trace r) ⊆+ here ++ prefixes_received (listing_calls (trace r))
    /\ (result r = Returned tt ->
        yields (trace r) ≡ₚ here ++ prefixes_received (listing_calls (trace r))).
Proof.
  intros IH resp w. cbn zeta. unfold descend.
  destruct (CommonPrefixes resp) as [ds|]; [|done].
  change (default [] (Some ds)) with ds.
  revert w. induction ds as [|d ds IHds]; intros w; [done|].
  cbn [for_each].
  destruct (IH (Prefix d) "" w) as [Hsub Hperm]. cbn zeta in Hsub, Hperm.
  destruct (iterate_dirs_from fuel b (Prefix d) "" w) as [t1 [[]|e|] w1] eqn:Hr1;
    cbn [trace result final] in *.
  - erewrite bind_returned.
    2: { erewrite bind_returned; [|reflexivity]. rewrite Hr1. reflexivity. }
    cbn [trace result final app].
    destruct (IHds w1) as [Hsub2 Hperm2].
    change (yields (Yield (Prefix d) :: t1 ++ ?t)) with (Prefix d :: yields (t1 ++ t)).
    change (listing_calls (Yield (Prefix d) :: t1 ++ ?t)) with (listing_calls (t1 ++ t)).
    rewrite yields_app, received_app, fmap_cons. cbn [app]. split.
    + apply submseteq_skip.
      rewrite (Permutation_app_swap_app (Prefix <$> ds)).
      by apply submseteq_app.
    + intros Hret. apply Permutation_skip.
      rewrite (Permutation_app_swap_app (Prefix <$> ds)).
      by rewrite (Hperm eq_refl), (Hperm2 Hret).
  - erewrite bind_raised.
    2: { erewrite bind_returned; [|reflexivity]. rewrite Hr1. reflexivity. }
    cbn [trace result final app]. split; [|done].
    change (yields (Yield (Prefix d) :: t1)) with (Prefix d :: yields t1).
    change (listing_calls (Yield (Prefix d) :: t1)) with (listing_calls t1).
    rewrite fmap_cons. cbn [app]. apply submseteq_skip.
    etrans; [exact Hsub|]. apply submseteq_inserts_l. done.
  - erewrite bind_out_of_fuel.
    2: { erewrite bind_returned; [|reflexivity]. rewrite Hr1. reflexivity. }
    cbn [trace result final app]. split; [|done].
    change (yields (Yield (Prefix d) :: t1)) with (Prefix d :: yields t1).
    change (listing_calls (Yield (Prefix d) :: t1)) with (listing_calls t1).
    rewrite fmap_cons. cbn [app]. apply submseteq_skip.
    etrans; [exact Hsub|]. apply submseteq_inserts_l. done.
Qed.

Lemma dirs_received_from (fuel : nat) (b p t : string) (w : world) :
  let r := iterate_dirs_from fuel b p t w in
  yields (trace r) ⊆+ prefixes_received (listing_calls (trace r))
  /\ (result r = Returned tt ->
      yields (trace r) ≡ₚ prefixes_received (listing_calls (trace r))).
Proof.
  revert p t w. induction fuel as [|fuel IH]; intros p t w; [done|]. cbn zeta.
  rewrite iterate_dirs_from_S.
  destruct (client_list_objects_v2 (dirs_request b p t) w) as [[e|resp] w1]; [done|].
  cbn zeta.
  destruct (descend_received fuel b IH resp w1) as [Hsub Hperm].
  cbn zeta in Hsub, Hperm.
  assert (Hcall : forall tl,
             yields (EvListObjectsV2 (dirs_request b p t) (inr resp) :: tl) = yields tl
             /\ prefixes_received
                  (listing_calls (EvListObjectsV2 (dirs_request b p t) (inr resp) :: tl))
                = (Prefix <$> default [] (CommonPrefixes resp))
                    ++ prefixes_received (listing_calls tl)) by done.
  destruct (descend fuel b resp w1) as [ts [[]|e|] w2]; cbn [trace result final] in *.
  - destruct (NextContinuationToken resp) as [tok|]; cbn [trace result].
    + destruct (IH p tok w2) as [Hsub' Hperm']. cbn zeta in Hsub', Hperm'.
      destruct (Hcall (ts ++ trace (iterate_dirs_from fuel b p tok w2))) as [-> ->].
      rewrite yields_app, received_app, app_assoc. split.
      * by apply submseteq_app.
      * intros Hret. by rewrite (Hperm eq_refl), (Hperm' Hret).
    + destruct (Hcall ts) as [-> ->]. split; [done|]. intros _. by apply Hperm.
  - destruct (Hcall ts) as [-> ->]. by split.
  - destruct (Hcall ts) as [-> ->]. by split.
Qed.

Lemma dirs_calls_shape (fuel : nat) (b p t : string) (w : world) :
  Forall (fun c => exists p' t', c.1 = dirs_request b p' t')
         (listing_calls (trace (iterate_dirs_from fuel b p t w))).
Proof.
  revert p t w. induction fuel as [|fuel IH]; intros p t w; [constructor|].
  rewrite iterate_dirs_from_S.
  destruct (client_list_objects_v2 (dirs_request b p t) w) as [[e|resp] w1].
  { constructor; [by eexists _, _|constructor]. }
  cbn zeta.
  assert (Hsub : forall w', Forall (fun c => exists p' t', c.1 = dirs_request b p' t')
                              (listing_calls (trace (descend fuel b resp w')))).
  { intros w'. unfold descend. destruct (CommonPrefixes resp) as [ds|]; [|constructor].
    revert w'. induction ds as [|d ds IHds]; intros w'; [constructor|].
    cbn [for_each]. unfold bind at 1.
    assert (Hbody : bind (yield (Prefix d))
                      (fun _ => iterate_dirs_from fuel b (Prefix d) "") w'
                    = Run (Yield (Prefix d)
                             :: trace (iterate_dirs_from fuel b (Prefix d) "" w'))
                          (result (iterate_dirs_from fuel b (Prefix d) "" w'))
                          (final (iterate_dirs_from fuel b (Prefix d) "" w')))
      by (erewrite bind_returned; [|reflexivity]; reflexivity).
    rewrite Hbody. cbn [trace result final].
    destruct (result (iterate_dirs_from fuel b (Prefix d) "" w')) as [[]| |];
      cbn [trace]; try apply IH.
    change (listing_calls (Yield (Prefix d) :: ?a ++ ?c)) with (listing_calls (a ++ c)).
    rewrite listing_calls_app. apply Forall_app. split; [apply IH|apply IHds]. }
  assert (Hhead : forall tl,
             Forall (fun c => exists p' t', c.1 = dirs_request b p' t') (listing_calls tl) ->
             Forall (fun c => exists p' t', c.1 = dirs_request b p' t')
               (listing_calls (EvListObjectsV2 (dirs_request b p t) (inr resp) :: tl))).
  { intros tl Htl. constructor; [by eexists _, _|done]. }
  specialize (Hsub w1).
  destruct (descend fuel b resp w1) as [ts [[]|e|] w2]; cbn [trace result final] in *;
    [|by apply Hhead..].
  destruct (NextContinuationToken resp) as [tok|]; cbn [trace]; apply Hhead; [|done].
  rewrite listing_calls_app. apply Forall_app. split; [done|apply IH].
Qed.

(** X4: for any client, every listing call of [iterate_dirs], at every
    depth, is a delimited listing of the given bucket that passes neither
    a page size nor a start-after key.  What the run yields is taken from
    the common prefixes of the pages it received, no more often than they
    came; a run that ends normally has yielded all of them, exactly as
    often as they came. *)
Theorem iterate_dirs_yields_received (fuel : nat) (bucket prefix : string) (w : world) :
  let r := iterate_dirs fuel bucket prefix w in
  let calls := listing_calls (trace r) in
  (forall q x,
      (q, x) ∈ calls ->
      req_Bucket q = bucket /\ req_Delimiter q = Some "/"
      /\ req_MaxKeys q = None /\ req_StartAfter q = None)
  /\ yields (trace r) ⊆+ prefixes_received calls
  /\ (result r = Returned tt -> yields (trace r) ≡ₚ prefixes_received calls).
Proof.
  cbn zeta. unfold iterate_dirs. split.
  - intros q x Hq.
    pose proof (dirs_calls_shape fuel bucket prefix "" w) as Hall.
    eapply Forall_forall in Hall; [|exact Hq].
    destruct Hall as (p' & t' & Hqq). cbn in Hqq. by subst q.
  - apply dirs_received_from.
Qed.

End DirsTrace.

(** ** The directory of a download that is not there *)

Section DownloadDir.

Context {E : Env}.

(** X5: when the directory of the local path does not exist,
    [download_file] creates it before anything else.  A failure of the
    creation is raised as it is and the storage client is not called; after
    a creation that succeeded the client's download is called in the world
    the creation left, and its failure, if any, is raised with the new
    directory left in place: no call follows it. *)
Theorem download_file_missing_dir (bucket key path : string) (w : world) :
  os_path_exists (dirname path) w = false ->
  (forall e w1,
      os_makedirs (dirname path) w = (inl e, w1) ->
      download_file bucket key path w
      = Run [EvPathExists (dirname path) false; EvMakedirs (dirname path) (inl e)]
            (Raised e) w1)
  /\ (forall w1,
        os_makedirs (dirname path) w = (inr tt, w1) ->
        download_file bucket key path w
        = Run [EvPathExists (dirname path) false;
               EvMakedirs (dirname path) (inr tt);
               EvDownloadFile bucket key path (client_download_file bucket key path w1).1]
              (match (client_download_file bucket key path w1).1 with
               | inl e => Raised e
               | inr a => Returned a
               end)
              (client_download_file bucket key path w1).2).
Proof.
  intros Hex. unfold download_file, path_exists. split.
  - intros e w1 Hmk. erewrite bind_returned; [|reflexivity]. rewrite Hex.
    cbn [negb]. erewrite bind_raised; [done|]. unfold perform. by rewrite Hmk.
  - intros w1 Hmk. erewrite bind_returned; [|reflexivity]. rewrite Hex.
    cbn [negb trace result final].
    erewrite bind_returned; [|unfold perform; rewrite Hmk; reflexivity].
    cbn [trace result final]. unfold perform.
    by destruct (client_download_file bucket key path w1) as [[e|[]] w2].
Qed.

End DownloadDir.

(** ** [posixpath.dirname] of a file in a directory *)

Section Dirname.

Lemma rfind_sep_from_dir (i : Z) (d f : string) :
  (0 <= i)%Z -> contains_sep f = false ->
  rfind_sep_from i (d +:+ "/" +:+ f) = (i + Z.of_nat (String.length d))%Z.
Proof.
  revert i. induction d as [|c d IH]; intros i Hi Hf.
  - change ("" +:+ "/" +:+ f) with (String sep f). cbn [rfind_sep_from].
    rewrite (rfind_sep_from_none _ _ Hf). cbn. lia.
  - rewrite str_app_cons. cbn [rfind_sep_from String.length].
    rewrite IH by (lia || done).
    destruct (Z.leb_spec 0 (i + 1 + Z.of_nat (String.length d))); lia.
Qed.

Lemma substring_app (a b : string) : String.substring 0 (String.length a) (a +:+ b) = a.
Proof.
  induction a as [|c a IH]; [by destruct b|].
  rewrite str_app_cons. cbn. by rewrite IH.
Qed.

Lemma all_sep_dir (d : string) :
  d <> "" -> endswith_sep d = false -> all_sep (d +:+ "/") = false.
Proof.
  induction d as [|c d IH]; [done|]. intros _ Hend. rewrite str_app_cons.
  cbn [all_sep]. destruct d as [|c' d].
  - cbn in Hend. by rewrite Hend.
  - rewrite IH; [by rewrite andb_false_r|done|done].
Qed.

Lemma rstrip_sep_dir (d : string) :
  d <> "" -> endswith_sep d = false -> rstrip_sep (d +:+ "/") = d.
Proof.
  induction d as [|c d IH]; [done|]. intros _ Hend. rewrite str_app_cons.
  cbn [rstrip_sep]. destruct d as [|c' d].
  - cbn in Hend |- *. by rewrite Hend.
  - rewrite IH by done. done.
Qed.

(** The directory of [d/f] is [d]: [d] not empty and not ending in "/",
    [f] without a "/". *)
Lemma dirname_dir_file (d f : string) :
  d <> "" -> endswith_sep d = false -> contains_sep f = false ->
  dirname (d +:+ "/" +:+ f) = d.
Proof.
  intros Hd Hend Hf. unfold dirname, rfind_sep.
  rewrite rfind_sep_from_dir by (lia || done).
  replace (Z.to_nat (0 + Z.of_nat (String.length d) + 1))
    with (String.length (d +:+ "/")) by (rewrite str_app_length; cbn; lia).
  rewrite <-str_app_assoc, substring_app.
  rewrite (all_sep_dir d Hd Hend), (rstrip_sep_dir d Hd Hend).
  by destruct d.
Qed.

End Dirname.

(** ** Files up and down, on the in-memory service *)

Section MockFiles.

Local Existing Instance Mock.env | 0.

Lemma mock_get_found (st : Mock.state) (bucket key : string)
    (m : gmap string bytes) (body : bytes) :
  Mock.buckets st !! bucket = Some m -> m !! key = Some body ->
  Mock.get bucket key st = (inr body, st).
Proof. intros Hm Hk. unfold Mock.get. by rewrite Hm, Hk. Qed.

Lemma mock_get_missing (st : Mock.state) (bucket key : string) (m : gmap string bytes) :
  Mock.buckets st !! bucket = Some m -> m !! key = None ->
  Mock.get bucket key st = (inl (ClientError "NoSuchKey"), st).
Proof. intros Hm Hk. unfold Mock.get. by rewrite Hm, Hk. Qed.

Lemma mock_exists_dir (st : Mock.state) (d : string) :
  d <> "" -> d ∈ Mock.local_dirs st -> Mock.exists_ d st = true.
Proof.
  intros Hd Hin. unfold Mock.exists_. rewrite bool_decide_eq_false_2 by done.
  cbn [negb andb]. apply orb_true_intro. left. by apply bool_decide_eq_true_2.
Qed.

(** The directories above a path are shorter than the path. *)
Lemma parents_from_length (acc path p : string) :
  p ∈ Mock.parents_from acc path ->
  String.length p < String.length acc + String.length path.
Proof.
  revert acc. induction path as [|c path IH]; intros acc; cbn [Mock.parents_from].
  - by intros ?%elem_of_nil.
  - intros [Hp|Hp]%elem_of_app.
    + destruct (Ascii.eqb c sep && truthy acc); [|by apply elem_of_nil in Hp].
      apply list_elem_of_singleton in Hp as ->. cbn. lia.
    + apply IH in Hp. rewrite str_app_length in Hp. cbn in *. lia.
Qed.

(** X6: a download to [d/f], where the local directory [d] does not
    exist yet and can be made (no directory above it is a regular file),
    creates [d] and then puts the bytes of the object into [d/f]; the
    buckets are as they were.  When the object is not there, the error of
    the client is raised and the directory [d] has been created all the
    same. *)
Theorem download_file_into_new_dir
    (st : Mock.state) (bucket key d f : string) (m : gmap string bytes) :
  Mock.buckets st !! bucket = Some m ->
  key <> "" ->
  d <> "" -> endswith_sep d = false -> contains_sep f = false ->
  Mock.normal (d +:+ "/" +:+ f) = true ->
  Mock.exists_ d st = false ->
  Mock.under_file d st = false ->
  (d +:+ "/" +:+ f) ∉ Mock.local_dirs st ->
  let r := download_file bucket key (d +:+ "/" +:+ f) st in
  Mock.exists_ d (final r) = true
  /\ Mock.buckets (final r) = Mock.buckets st
  /\ (forall body, m !! key = Some body ->
        result r = Returned tt
        /\ Mock.local_files (final r) !! (d +:+ "/" +:+ f) = Some body)
  /\ (m !! key = None ->
        result r = Raised (ClientError "404")
        /\ Mock.local_files (final r) = Mock.local_files st).
Proof.
  intros Hm _ Hd Hend Hf _ Hex Hunder Hnodir. cbn zeta.
  unfold download_file, path_exists. rewrite (dirname_dir_file d f Hd Hend Hf).
  erewrite bind_returned; [|reflexivity]. cbn [os_path_exists Mock.env].
  rewrite Hex. cbn [negb trace result final].
  set (st1 := {| Mock.buckets := Mock.buckets st;
                 Mock.local_dirs :=
                   Mock.local_dirs st ∪ list_to_set (d :: Mock.parents_from "" d);
                 Mock.local_files := Mock.local_files st;
                 Mock.page_limit := Mock.page_limit st |}).
  assert (Hmk : Mock.makedirs d st = (inr tt, st1)).
  { unfold Mock.makedirs. rewrite bool_decide_eq_false_2 by done.
    by rewrite Hex, Hunder. }
  assert (Hin1 : d ∈ Mock.local_dirs st1).
  { unfold st1. cbn [Mock.local_dirs]. rewrite list_to_set_cons. set_solver. }
  assert (Hout1 : (d +:+ "/" +:+ f) ∉ Mock.local_dirs st1).
  { unfold st1. cbn [Mock.local_dirs].
    rewrite elem_of_union, elem_of_list_to_set, elem_of_cons.
    intros [Hin|[Heq|Hin]]; [done| |].
    - apply (f_equal String.length) in Heq. rewrite !str_app_length in Heq.
      cbn in Heq. lia.
    - apply parents_from_length in Hin. rewrite !str_app_length in Hin.
      cbn in Hin. lia. }
  assert (Hpath : d +:+ "/" +:+ f <> "").
  { intros Heq. apply (f_equal String.length) in Heq.
    rewrite !str_app_length in Heq. cbn in Heq. lia. }
  assert (Hex1 : Mock.exists_ d st1 = true) by by apply mock_exists_dir.
  erewrite bind_returned;
    [|unfold perform; cbn [os_makedirs Mock.env]; rewrite Hmk; reflexivity].
  cbn [trace result final]. unfold perform. cbn [client_download_file Mock.env].
  unfold Mock.download_file. rewrite (dirname_dir_file d f Hd Hend Hf).
  destruct (m !! key) as [body|] eqn:Hk.
  - rewrite (mock_get_found st1 bucket key m body) by done. cbn zeta.
    rewrite (bool_decide_eq_false_2 _ Hpath), (bool_decide_eq_true_2 _ Hin1),
      orb_true_r, (bool_decide_eq_false_2 _ Hout1).
    cbn [trace result final Mock.buckets Mock.local_files].
    split_and!; [by apply mock_exists_dir|done| |done].
    intros body' [= <-]. split; [done|]. by rewrite lookup_insert_eq.
  - rewrite (mock_get_missing st1 bucket key m) by done.
    cbn [trace result final Mock.buckets Mock.local_files].
    split_and!; [done|done|done|]. by intros _.
Qed.

(** X7: [upload_file] stores the bytes of the local file under the key
    (its arguments go to the resource in the resource's order, file name
    first): reading the key back without a decoding returns those very
    bytes, whatever they are, and reading it back as UTF-8 raises
    [UnicodeDecodeError] when they are not UTF-8. *)
Theorem upload_file_then_read_raw
    (st : Mock.state) (bucket key path : string) (data : bytes) :
  Mock.local_files st !! path = Some data ->
  is_Some (Mock.buckets st !! bucket) ->
  let up := upload_file bucket key path st in
  result up = Returned tt
  /\ result (read_file bucket key "" (final up)) = Returned (Bytes data)
  /\ (Mock.utf8_valid_from Mock.Start data = false ->
      result (read_file bucket key "utf-8" (final up)) = Raised UnicodeDecodeError).
Proof.
  intros Hfile [m Hm]. cbn zeta.
  unfold upload_file, perform. cbn [bucket_upload_file Mock.env].
  unfold Mock.upload_file, Mock.put_bytes. rewrite Hfile, Hm.
  cbn [trace result final]. split; [done|].
  assert (Hget : Mock.get bucket key
                   (Mock.with_buckets st (<[bucket:=<[key:=data]> m]> (Mock.buckets st)))
                 = (inr data,
                    Mock.with_buckets st (<[bucket:=<[key:=data]> m]> (Mock.buckets st)))).
  { apply (mock_get_found _ _ _ (<[key:=data]> m)); cbn; by rewrite lookup_insert_eq. }
  split.
  - unfold read_file. erewrite bind_returned;
      [|unfold perform; cbn [object_get Mock.env]; rewrite Hget; reflexivity].
    done.
  - intros Hbad. unfold read_file. erewrite bind_returned;
      [|unfold perform; cbn [object_get Mock.env]; rewrite Hget; reflexivity].
    cbn [truthy trace result final].
    erewrite bind_raised; [done|].
    cbn [bytes_decode Mock.env]. unfold Mock.decode. cbn. by rewrite Hbad.
Qed.

(** X8: a file that [upload_file] sent to a key comes back from
    [download_file] of that key byte for byte, at any local path that is
    not a directory and whose directory is one. *)
Theorem upload_then_download_round_trip
    (st : Mock.state) (bucket key src dst : string) (data : bytes) :
  Mock.local_files st !! src = Some data ->
  is_Some (Mock.buckets st !! bucket) ->
  key <> "" ->
  Mock.normal dst = true ->
  dirname dst <> "" ->
  dirname dst ∈ Mock.local_dirs st ->
  dst ∉ Mock.local_dirs st ->
  let up := upload_file bucket key src st in
  let down := download_file bucket key dst (final up) in
  result up = Returned tt
  /\ result down = Returned tt
  /\ Mock.local_files (final down) !! dst = Some data
  /\ (src <> dst -> Mock.local_files (final down) !! src = Some data).
Proof.
  intros Hfile [m Hm] _ Hnormal Hdir Hin Hout. cbn zeta.
  unfold upload_file, perform. cbn [bucket_upload_file Mock.env].
  unfold Mock.upload_file, Mock.put_bytes. rewrite Hfile, Hm.
  cbn [trace result final]. split; [done|].
  set (st1 := Mock.with_buckets st (<[bucket:=<[key:=data]> m]> (Mock.buckets st))).
  assert (Hget : Mock.get bucket key st1 = (inr data, st1)).
  { apply (mock_get_found _ _ _ (<[key:=data]> m)); cbn; by rewrite lookup_insert_eq. }
  assert (Hex1 : Mock.exists_ (dirname dst) st1 = true) by by apply mock_exists_dir.
  assert (Hdst : dst <> "") by (by intros ->).
  unfold download_file, path_exists.
  erewrite bind_returned; [|reflexivity]. cbn [os_path_exists Mock.env].
  rewrite Hex1. cbn [negb trace result final].
  erewrite bind_returned; [|reflexivity]. cbn [trace result final].
  unfold perform. cbn [client_download_file Mock.env]. unfold Mock.download_file.
  rewrite Hget. cbn zeta.
  rewrite (bool_decide_eq_false_2 _ Hdst).
  rewrite (bool_decide_eq_true_2 (dirname dst ∈ Mock.local_dirs st1)) by exact Hin.
  rewrite orb_true_r.
  rewrite (bool_decide_eq_false_2 (dst ∈ Mock.local_dirs st1)) by exact Hout.
  cbn [trace result final Mock.local_files].
  split_and!; [done| |].
  - by rewrite lookup_insert_eq.
  - intros Hne. rewrite lookup_insert_ne by done. exact Hfile.
Qed.

End MockFiles.

(** ** Listings after writes and deletes, on the in-memory service *)

Section MockListings.

Local Existing Instance Mock.env | 0.

Lemma page_count_le (len n : nat) : 0 < n -> page_count len n <= S len.
Proof.
  intros Hn. unfold page_count. apply le_n_S.
  etrans; [apply (Nat.Div0.div_le_upper_bound _ n (len - 1)); nia|lia].
Qed.

Lemma elem_of_keys_under (prefix k : string) (keys : list string) :
  k ∈ keys_under prefix keys <-> k ∈ keys /\ exists rest, k = prefix +:+ rest.
Proof.
  unfold keys_under. rewrite list_elem_of_filter. split.
  - intros [[r Hr] Hk]. split; [done|]. exists r. by apply strip_prefix_Some.
  - intros [Hk [r ->]]. split; [|done]. rewrite strip_prefix_app. by eexists.
Qed.

(** The keys of a bucket under a prefix, as [iterate_keys] lists them. *)
Lemma mock_keys_listing
    (st : Mock.state) (bucket prefix : string) (m : gmap string bytes) (fuel : nat) :
  Mock.buckets st !! bucket = Some m ->
  m !! "" = None ->
  0 < Mock.page_limit st ->
  S (size m) <= fuel ->
  let r := iterate_keys fuel bucket prefix st in
  let ks := keys_under prefix (Mock.sorted_keys m) in
  result r = Returned tt
  /\ yields (trace r) = ks
  /\ length (listing_calls (trace r))
     = page_count (length ks) (Mock.page_size (Some keys_per_page) st)
  /\ final r = st.
Proof.
  intros Hm Hempty Hlimit Hfuel. cbn zeta.
  assert (Hn : 0 < Mock.page_size (Some keys_per_page) st).
  { unfold Mock.page_size, keys_per_page. cbn [default]. unfold id. lia. }
  assert (Hall : keys_after prefix "" (Mock.sorted_keys m)
                 = keys_under prefix (Mock.sorted_keys m)).
  { unfold keys_after. f_equal. apply filter_all, Forall_forall.
    intros k Hk. apply ltb_empty. intros ->.
    apply elem_of_sorted_keys, elem_of_dom in Hk as [? Hk]. congruence. }
  destruct (mock_keys_run st bucket prefix m Hm Hn
              (length (keys_under prefix (Mock.sorted_keys m))) "" fuel)
    as (Hr & Hy & Hc & Hf).
  { by rewrite Hall. }
  { etrans; [apply page_count_le, Hn|].
    pose proof (length_filter (fun k => is_Some (Mock.strip_prefix prefix k))
                  (Mock.sorted_keys m)) as Hle.
    rewrite length_sorted_keys in Hle. unfold keys_under. lia. }
  unfold iterate_keys. by rewrite Hall in Hy.
Qed.

(** X9: for every bucket of the in-memory service, every prefix and every
    page size of at least one key, [iterate_keys] ends normally and
    yields exactly the keys of the bucket that start with the prefix, in
    ascending order and each once, in as many listing calls as that many
    keys take pages; it changes nothing in the world. *)
Theorem iterate_keys_lists_prefix
    (st : Mock.state) (bucket prefix : string) (m : gmap string bytes) (fuel : nat) :
  Mock.buckets st !! bucket = Some m ->
  m !! "" = None ->
  0 < Mock.page_limit st ->
  S (size m) <= fuel ->
  let r := iterate_keys fuel bucket prefix st in
  result r = Returned tt
  /\ ascending (yields (trace r))
  /\ (forall k, k ∈ yields (trace r) <-> k ∈ dom m /\ exists rest, k = prefix +:+ rest)
  /\ length (listing_calls (trace r))
     = page_count (length (yields (trace r)))
                  (Nat.min (Z.to_nat keys_per_page) (Mock.page_limit st))
  /\ final r = st.
Proof.
  intros Hm Hempty Hlimit Hfuel. cbn zeta.
  destruct (mock_keys_listing st bucket prefix m fuel Hm Hempty Hlimit Hfuel)
    as (Hr & Hy & Hc & Hf).
  cbn zeta in Hy, Hc. rewrite Hy. split_and!; [done| | |exact Hc|done].
  - apply ascending_filter, sorted_keys_ascending.
  - intros k. by rewrite elem_of_keys_under, elem_of_sorted_keys.
Qed.

(** X10: a key that [write_file] has written is listed: [iterate_keys]
    with any prefix of the key yields it, once, beside the keys that were
    listed before. *)
Theorem write_file_then_listed
    (st : Mock.state) (bucket key content prefix rest : string)
    (m : gmap string bytes) (fuel : nat) :
  Mock.buckets st !! bucket = Some m ->
  m !! "" = None ->
  key = prefix +:+ rest -> key <> "" ->
  0 < Mock.page_limit st ->
  S (S (size m)) <= fuel ->
  let written := write_file bucket key content st in
  let r := iterate_keys fuel bucket prefix (final written) in
  result written = Returned tt
  /\ result r = Returned tt
  /\ key ∈ yields (trace r)
  /\ NoDup (yields (trace r))
  /\ (forall k, k ∈ yields (trace r) <->
                (k = key \/ k ∈ dom m) /\ exists rest', k = prefix +:+ rest').
Proof.
  intros Hm Hempty Hkey Hne Hlimit Hfuel. cbn zeta.
  unfold write_file, perform. cbn [object_put Mock.env].
  unfold Mock.put, Mock.put_bytes. rewrite Hm. cbn [trace result final].
  split; [done|].
  set (m' := <[key := Mock.encode_utf8 content]> m).
  set (st' := Mock.with_buckets st (<[bucket := m']> (Mock.buckets st))).
  assert (Hm' : Mock.buckets st' !! bucket = Some m') by apply lookup_insert_eq.
  assert (Hempty' : m' !! "" = None).
  { unfold m'. by rewrite lookup_insert_ne. }
  assert (Hsize : size m' <= S (size m)).
  { unfold m'. destruct (m !! key) eqn:Hk.
    - rewrite map_size_insert_Some by done. lia.
    - rewrite map_size_insert_None by done. lia. }
  destruct (mock_keys_listing st' bucket prefix m' fuel Hm' Hempty' Hlimit ltac:(lia))
    as (Hr & Hy & _ & _).
  cbn zeta in Hy. rewrite Hy. split; [done|].
  assert (Hin : forall k, k ∈ keys_under prefix (Mock.sorted_keys m') <->
                          (k = key \/ k ∈ dom m) /\ exists rest', k = prefix +:+ rest').
  { intros k. rewrite elem_of_keys_under, elem_of_sorted_keys.
    unfold m'. rewrite dom_insert_L. set_solver. }
  split_and!; [|apply ascending_NoDup, ascending_filter, sorted_keys_ascending|done].
  apply Hin. split; [by left|by exists rest].
Qed.

(** X11: [delete_file] returns normally whether the key was there or not;
    after it a read of the key raises the service's [NoSuchKey], and
    [iterate_keys] yields the other keys of the bucket as before but not
    the deleted one. *)
Theorem delete_file_then_gone
    (st : Mock.state) (bucket key prefix decode : string)
    (m : gmap string bytes) (fuel : nat) :
  Mock.buckets st !! bucket = Some m ->
  m !! "" = None ->
  0 < Mock.page_limit st ->
  S (size m) <= fuel ->
  let deleted := delete_file bucket key st in
  let r := iterate_keys fuel bucket prefix (final deleted) in
  result deleted = Returned tt
  /\ result (read_file bucket key decode (final deleted))
     = Raised (ClientError "NoSuchKey")
  /\ result r = Returned tt
  /\ (key ∉ yields (trace r))
  /\ (forall k, k ∈ yields (trace r) <->
                k <> key /\ k ∈ dom m /\ exists rest, k = prefix +:+ rest).
Proof.
  intros Hm Hempty Hlimit Hfuel. cbn zeta.
  unfold delete_file, perform. cbn [object_delete Mock.env].
  unfold Mock.delete. rewrite Hm. cbn [trace result final].
  set (m' := base.delete key m).
  set (st' := Mock.with_buckets st (<[bucket := m']> (Mock.buckets st))).
  assert (Hm' : Mock.buckets st' !! bucket = Some m') by apply lookup_insert_eq.
  assert (Hempty' : m' !! "" = None).
  { unfold m'. rewrite lookup_delete. by case_decide. }
  assert (Hsize : size m' <= size m).
  { unfold m'. rewrite map_size_delete. destruct (m !! key); unfold id; lia. }
  split; [done|]. split.
  { unfold read_file. erewrite bind_raised; [done|].
    unfold perform. cbn [object_get Mock.env].
    rewrite (mock_get_missing st' bucket key m' Hm'); [done|].
    unfold m'. apply lookup_delete_eq. }
  destruct (mock_keys_listing st' bucket prefix m' fuel Hm' Hempty' Hlimit ltac:(lia))
    as (Hr & Hy & _ & _).
  cbn zeta in Hy. rewrite Hy. split; [done|].
  assert (Hin : forall k, k ∈ keys_under prefix (Mock.sorted_keys m') <->
                          k <> key /\ k ∈ dom m /\ exists rest, k = prefix +:+ rest).
  { intros k. rewrite elem_of_keys_under, elem_of_sorted_keys.
    unfold m'. rewrite dom_delete_L, elem_of_difference, elem_of_singleton. tauto. }
  split; [|done]. intros Hk. apply Hin in Hk. by destruct Hk.
Qed.

(** X12: the size that [get_file_size] reports for a text that
    [write_file] wrote is the number of bytes of its UTF-8 form. *)
Theorem write_file_then_size
    (st : Mock.state) (bucket key content : string) :
  is_Some (Mock.buckets st !! bucket) ->
  let written := write_file bucket key content st in
  result written = Returned tt
  /\ result (get_file_size bucket key (final written))
     = Returned (Z.of_nat (length (Mock.encode_utf8 content))).
Proof.
  intros [m Hm]. cbn zeta.
  unfold write_file, perform. cbn [object_put Mock.env].
  unfold Mock.put, Mock.put_bytes. rewrite Hm. cbn [trace result final].
  split; [done|]. unfold get_file_size.
  erewrite bind_returned; cycle 1.
  { unfold perform. cbn [client_head_object Mock.env]. unfold Mock.head_object.
    rewrite (mock_get_found _ bucket key (<[key := Mock.encode_utf8 content]> m)
               (Mock.encode_utf8 content)); [reflexivity| |];
      apply lookup_insert_eq. }
  reflexivity.
Qed.

(** X13: the two generators agree: [iterate_dirs] yields [d] exactly when
    [d] goes on from the prefix, ends in "/", and is the beginning of a
    key that [iterate_keys] yields for the same prefix. *)
Theorem dirs_are_prefixes_of_keys
    (st : Mock.state) (bucket prefix : string) (m : gmap string bytes)
    (fuel_dirs fuel_keys : nat) :
  Mock.buckets st !! bucket = Some m ->
  m !! "" = None ->
  0 < Mock.page_limit st ->
  S (height (Mock.sorted_keys m)) * S (size m) <= fuel_dirs ->
  S (size m) <= fuel_keys ->
  let dirs := yields (trace (iterate_dirs fuel_dirs bucket prefix st)) in
  let keys := yields (trace (iterate_keys fuel_keys bucket prefix st)) in
  forall d,
    d ∈ dirs <->
    exists k s r, k ∈ keys /\ d = prefix +:+ s +:+ "/" /\ k = d +:+ r.
Proof.
  intros Hm Hempty Hlimit Hfd Hfk. cbn zeta.
  destruct (mock_keys_listing st bucket prefix m fuel_keys Hm Hempty Hlimit Hfk)
    as (_ & Hy & _ & _).
  cbn zeta in Hy. rewrite Hy.
  assert (Hn : 0 < Mock.page_size None st).
  { unfold Mock.page_size. cbn. lia. }
  destruct (mock_dirs_run st bucket m Hm Hn (height (Mock.sorted_keys m)) prefix fuel_dirs)
    as (_ & Hyd & _); [lia| |].
  { by rewrite length_sorted_keys. }
  unfold iterate_dirs. rewrite Hyd.
  intros d. split.
  - intros (k & s & r & Hk & -> & ->)%walk_dir_under.
    exists ((prefix +:+ s +:+ "/") +:+ r), s, r. split_and!; [|done..].
    apply elem_of_keys_under. split; [done|].
    exists (s +:+ "/" +:+ r). by rewrite !str_app_assoc.
  - intros (k & s & r & Hk & -> & ->).
    apply elem_of_keys_under in Hk as [Hk _].
    apply dir_under_walk; [by exists ((prefix +:+ s +:+ "/") +:+ r), s, r|].
    assert (String.length ((prefix +:+ s +:+ "/") +:+ r)
            <= height (Mock.sorted_keys m)) as Hle.
    { apply max_list_elem_of_le, list_elem_of_fmap. by eexists. }
    rewrite !str_app_length in Hle. rewrite !str_app_length. lia.
Qed.

(** X14: [list_buckets] returns the names of the buckets there are, each
    once; [write_file] returns normally for exactly these buckets, and for
    any other it raises the service's [NoSuchBucket] and changes
    nothing. *)
Theorem list_buckets_are_writable (st : Mock.state) :
  exists names,
    list_buckets st
    = Run [EvListBuckets (inr {| Buckets := (fun b => {| Name := b |}) <$> names |})]
          (Returned names) st
    /\ NoDup names
    /\ (forall bucket key content,
          bucket ∈ names ->
          result (write_file bucket key content st) = Returned tt)
    /\ (forall bucket key content,
          bucket ∉ names ->
          write_file bucket key content st
          = Run [EvObjectPut bucket key content (inl (ClientError "NoSuchBucket"))]
                (Raised (ClientError "NoSuchBucket")) st).
Proof.
  set (names := merge_sort String.le (elements (dom (Mock.buckets st)))).
  assert (Hin : forall b, b ∈ names <-> is_Some (Mock.buckets st !! b)).
  { intros b. unfold names. by rewrite merge_sort_Permutation, elem_of_elements, elem_of_dom. }
  exists names. split_and!.
  - unfold list_buckets. erewrite bind_returned; [|reflexivity].
    cbn [trace result final Buckets]. fold names.
    assert (Hnames : Name <$> ((fun b => {| Name := b |}) <$> names) = names).
    { clear Hin. induction names as [|b l IH]; [done|]. cbn. by rewrite IH. }
    by rewrite Hnames.
  - unfold names. rewrite merge_sort_Permutation. apply NoDup_elements.
  - intros bucket key content [m Hm]%Hin.
    unfold write_file, perform. cbn [object_put Mock.env].
    unfold Mock.put, Mock.put_bytes. by rewrite Hm.
  - intros bucket key content Hnot.
    unfold write_file, perform. cbn [object_put Mock.env].
    unfold Mock.put, Mock.put_bytes.
    destruct (Mock.buckets st !! bucket) as [m|] eqn:Hm; [|done].
    destruct Hnot. apply Hin. by eexists.
Qed.

End MockListings.

(** ** Copies, on the in-memory service *)

Section MockCopy.

Local Existing Instance Mock.env | 0.

(** What a read returns depends on the object only. *)
Lemma read_file_result (st : Mock.state) (bucket key decode : string) :
  result (read_file bucket key decode st)
  = match (Mock.get bucket key st).1 with
    | inl e => Raised e
    | inr body =>
        if truthy decode then
          match Mock.decode body decode with
          | inl e => Raised e
          | inr s => Returned (Str s)
          end
        else Returned (Bytes body)
    end.
Proof.
  unfold read_file, bind, perform. cbn [object_get bytes_decode Mock.env].
  destruct (Mock.get bucket key st) as [[e|body] st']; [done|].
  cbn [result final fst]. destruct (truthy decode); [|done].
  by destruct (Mock.decode body decode).
Qed.

Lemma mock_get_insert (st : Mock.state) (bucket key b k : string)
    (m : gmap string bytes) (body : bytes) :
  Mock.buckets st !! bucket = Some m ->
  (Mock.get b k
     (Mock.with_buckets st (<[bucket := <[key := body]> m]> (Mock.buckets st)))).1
  = if bool_decide (b = bucket /\ k = key) then inr body
    else (Mock.get b k st).1.
Proof.
  intros Hm. unfold Mock.get. cbn [Mock.buckets Mock.with_buckets].
  destruct (decide (b = bucket)) as [->|Hb].
  - rewrite lookup_insert_eq, Hm.
    destruct (decide (k = key)) as [->|Hk].
    + rewrite lookup_insert_eq, bool_decide_true; done.
    + rewrite lookup_insert_ne by done. rewrite bool_decide_false by tauto.
      by destruct (m !! k).
  - rewrite lookup_insert_ne by done. rewrite bool_decide_false by tauto.
    destruct (Mock.buckets st !! b) as [mb|]; [|done]. by destruct (mb !! k).
Qed.

(** X15: where the source bucket has a plain name (not empty, no "/"),
    the source key does not start with "/" and the SDK finds no version id
    at the end of the copy source, [copy_file] of an object that exists
    to another place in a bucket that exists returns normally; after it a
    read of the target gives what a read of the source gave before, every
    other object (the source too) reads as before, and the local files
    are as they were.  A copy of an object onto itself is refused by the
    service and changes nothing. *)
Theorem copy_file_copies_object
    (st : Mock.state) (src_bucket src_key trg_bucket trg_key : string)
    (ms : gmap string bytes) (data : bytes) :
  src_bucket <> "" -> contains_sep src_bucket = false ->
  src_key <> "" -> startswith_sep src_key = false ->
  (Mock.split_version (join src_bucket src_key)).2 = None ->
  Mock.buckets st !! src_bucket = Some ms -> ms !! src_key = Some data ->
  is_Some (Mock.buckets st !! trg_bucket) ->
  trg_key <> "" ->
  let copied := copy_file src_bucket src_key trg_bucket trg_key st in
  ((src_bucket, src_key) <> (trg_bucket, trg_key) ->
   result copied = Returned tt
   /\ (forall decode,
         result (read_file trg_bucket trg_key decode (final copied))
         = result (read_file src_bucket src_key decode st))
   /\ (forall bucket key decode,
         (bucket, key) <> (trg_bucket, trg_key) ->
         result (read_file bucket key decode (final copied))
         = result (read_file bucket key decode st))
   /\ Mock.local_files (final copied) = Mock.local_files st
   /\ Mock.local_dirs (final copied) = Mock.local_dirs st)
  /\ ((src_bucket, src_key) = (trg_bucket, trg_key) ->
      result copied = Raised (ClientError "InvalidRequest")
      /\ final copied = st).
Proof.
  intros Hne Hb _ Hk Hv Hms Hdata [mt Hmt] _. cbn zeta.
  unfold copy_file, perform. cbn [object_copy_from Mock.env]. unfold Mock.copy_from.
  pose proof (split_version_none _ Hv) as Hs.
  destruct (Mock.split_version (join src_bucket src_key)) as [source version].
  cbn in Hv, Hs. subst source version.
  rewrite (parse_copy_source_join _ _ Hne Hb Hk). cbn [Mock.get_version].
  rewrite (mock_get_found st src_bucket src_key ms data Hms Hdata).
  split.
  - intros Hother. rewrite bool_decide_eq_false_2; [|intros [-> ->]; by apply Hother].
    unfold Mock.put_bytes. rewrite Hmt. cbn [trace result final].
    split_and!; [done| | |done..].
    + intros decode. rewrite !read_file_result, (mock_get_insert _ _ _ _ _ _ _ Hmt).
      rewrite bool_decide_true by done.
      by rewrite (mock_get_found st src_bucket src_key ms data Hms Hdata).
    + intros bucket key decode Hneq.
      rewrite !read_file_result, (mock_get_insert _ _ _ _ _ _ _ Hmt).
      rewrite bool_decide_false; [done|]. intros [-> ->]. by apply Hneq.
  - intros [= -> ->]. by rewrite bool_decide_eq_true_2.
Qed.

End MockCopy.

(** ** The further properties at concrete inputs *)

(** [iterate_dirs_descends] at the first directory of a scripted
    listing: the event after the yield of "a/" is the call for "a/". *)
Lemma iterate_dirs_descends_witness :
  let r := iterate_dirs (E := Scripted.env) 8 "bk" "" MoreExamples.dirs_script in
  trace r = take 1 (trace r) ++ Yield "a/" :: drop 2 (trace r)
  /\ match drop 2 (trace r) with
     | [] => result r = OutOfFuel
     | ev :: _ =>
         exists x,
           ev = EvListObjectsV2
                  {| req_Bucket := "bk"; req_Prefix := "a/";
                     req_Delimiter := Some "/"; req_MaxKeys := None;
                     req_StartAfter := None; req_ContinuationToken := None |} x
     end.
Proof.
  cbn zeta.
  assert (h : trace (iterate_dirs (E := Scripted.env) 8 "bk" "" MoreExamples.dirs_script)
              = take 1 (trace (iterate_dirs (E := Scripted.env) 8 "bk" ""
                                 MoreExamples.dirs_script))
                ++ Yield "a/"
                   :: drop 2 (trace (iterate_dirs (E := Scripted.env) 8 "bk" ""
                                       MoreExamples.dirs_script)))
    by (vm_compute; reflexivity).
  split; [exact h|].
  exact (iterate_dirs_descends (E := Scripted.env) 8 "bk" "" MoreExamples.dirs_script
           _ "a/" _ h).
Defined.

(** [download_file_missing_dir] where [out] is not there: the directory
    is made and the object downloaded, in three calls. *)
Lemma download_file_missing_dir_witness :
  let w := MoreExamples.file_world in
  let w1 := (@os_makedirs Mock.env (dirname "out/c.png") w).2 in
  (@os_path_exists Mock.env (dirname "out/c.png") w = false
   /\ @os_makedirs Mock.env (dirname "out/c.png") w = (inr tt, w1))
  /\ download_file (E := Mock.env) "bk" "img/c.png" "out/c.png" w
     = Run (E := Mock.env)
         [EvPathExists (dirname "out/c.png") false;
          EvMakedirs (dirname "out/c.png") (inr tt);
          EvDownloadFile "bk" "img/c.png" "out/c.png"
            (@client_download_file Mock.env "bk" "img/c.png" "out/c.png" w1).1]
         (match (@client_download_file Mock.env "bk" "img/c.png" "out/c.png" w1).1 with
          | inl e => Raised e
          | inr a => Returned a
          end)
         (@client_download_file Mock.env "bk" "img/c.png" "out/c.png" w1).2.
Proof.
  cbn zeta.
  assert (h1 : @os_path_exists Mock.env (dirname "out/c.png")
                 MoreExamples.file_world = false) by (vm_compute; reflexivity).
  assert (h2 : @os_makedirs Mock.env (dirname "out/c.png") MoreExamples.file_world
               = (inr tt, (@os_makedirs Mock.env (dirname "out/c.png")
                             MoreExamples.file_world).2))
    by (vm_compute; reflexivity).
  split; [exact (conj h1 h2)|].
  exact (proj2 (download_file_missing_dir (E := Mock.env) "bk" "img/c.png" "out/c.png"
                  MoreExamples.file_world h1) _ h2).
Defined.

(** [download_file_into_new_dir] for an object that is there. *)
Lemma download_file_into_new_dir_witness :
  let r := download_file (E := Mock.env) "bk" "img/c.png" ("out" +:+ "/" +:+ "c.png")
             MoreExamples.file_world in
  (Mock.buckets MoreExamples.file_world !! "bk" = Some MoreExamples.file_world_objects
   /\ "img/c.png" <> ""
   /\ "out" <> "" /\ endswith_sep "out" = false /\ contains_sep "c.png" = false
   /\ Mock.normal ("out" +:+ "/" +:+ "c.png") = true
   /\ Mock.exists_ "out" MoreExamples.file_world = false
   /\ Mock.under_file "out" MoreExamples.file_world = false
   /\ (("out" +:+ "/" +:+ "c.png") ∉ Mock.local_dirs MoreExamples.file_world)
   /\ MoreExamples.file_world_objects !! "img/c.png" = Some [Byte.xff; Byte.xd8])
  /\ Mock.exists_ "out" (final r) = true
  /\ result r = Returned tt
  /\ Mock.local_files (final r) !! ("out" +:+ "/" +:+ "c.png") = Some [Byte.xff; Byte.xd8].
Proof.
  cbn zeta.
  assert (h1 : Mock.buckets MoreExamples.file_world !! "bk"
               = Some MoreExamples.file_world_objects) by (vm_compute; reflexivity).
  assert (h0 : "img/c.png" <> "") by discriminate.
  assert (h2 : "out" <> "") by discriminate.
  assert (h3 : endswith_sep "out" = false) by reflexivity.
  assert (h4 : contains_sep "c.png" = false) by reflexivity.
  assert (h5 : Mock.normal ("out" +:+ "/" +:+ "c.png") = true)
    by (vm_compute; reflexivity).
  assert (h6 : Mock.exists_ "out" MoreExamples.file_world = false)
    by (vm_compute; reflexivity).
  assert (h7 : Mock.under_file "out" MoreExamples.file_world = false)
    by (vm_compute; reflexivity).
  assert (h8 : ("out" +:+ "/" +:+ "c.png") ∉ Mock.local_dirs MoreExamples.file_world)
    by (refine (bool_decide_eq_false_1 _ _); vm_compute; reflexivity).
  assert (h9 : MoreExamples.file_world_objects !! "img/c.png" = Some [Byte.xff; Byte.xd8])
    by (vm_compute; reflexivity).
  split;
    [exact (conj h1 (conj h0 (conj h2 (conj h3 (conj h4 (conj h5 (conj h6
              (conj h7 (conj h8 h9)))))))))|].
  pose proof (download_file_into_new_dir MoreExamples.file_world "bk" "img/c.png"
                "out" "c.png" MoreExamples.file_world_objects h1 h0 h2 h3 h4 h5 h6 h7 h8)
    as (Hex & _ & Hfound & _).
  exact (conj Hex (Hfound _ h9)).
Defined.

(** [upload_file_then_read_raw] for a local file that is not UTF-8. *)
Lemma upload_file_then_read_raw_witness :
  let up := upload_file (E := Mock.env) "bk" "up/in.bin" "/tmp/in.bin"
              MoreExamples.file_world in
  (Mock.local_files MoreExamples.file_world !! "/tmp/in.bin"
   = Some [Byte.xff; Byte.x00; Byte.x41]
   /\ is_Some (Mock.buckets MoreExamples.file_world !! "bk")
   /\ Mock.utf8_valid_from Mock.Start [Byte.xff; Byte.x00; Byte.x41] = false)
  /\ result up = Returned tt
  /\ result (read_file (E := Mock.env) "bk" "up/in.bin" "" (final up))
     = Returned (Bytes [Byte.xff; Byte.x00; Byte.x41])
  /\ result (read_file (E := Mock.env) "bk" "up/in.bin" "utf-8" (final up))
     = Raised UnicodeDecodeError.
Proof.
  cbn zeta.
  assert (h1 : Mock.local_files MoreExamples.file_world !! "/tmp/in.bin"
               = Some [Byte.xff; Byte.x00; Byte.x41]) by (vm_compute; reflexivity).
  assert (h2 : is_Some (Mock.buckets MoreExamples.file_world !! "bk"))
    by (eexists; vm_compute; reflexivity).
  assert (h3 : Mock.utf8_valid_from Mock.Start [Byte.xff; Byte.x00; Byte.x41] = false)
    by reflexivity.
  split; [exact (conj h1 (conj h2 h3))|].
  pose proof (upload_file_then_read_raw MoreExamples.file_world "bk" "up/in.bin"
                "/tmp/in.bin" _ h1 h2) as (Hup & Hraw & Hutf).
  exact (conj Hup (conj Hraw (Hutf h3))).
Defined.

(** [upload_then_download_round_trip] through an empty bucket. *)
Lemma upload_then_download_round_trip_witness :
  let up := upload_file (E := Mock.env) "other" "k" "/tmp/in.bin"
              MoreExamples.file_world in
  let down := download_file (E := Mock.env) "other" "k" "/tmp/out.bin" (final up) in
  (Mock.local_files MoreExamples.file_world !! "/tmp/in.bin"
   = Some [Byte.xff; Byte.x00; Byte.x41]
   /\ is_Some (Mock.buckets MoreExamples.file_world !! "other")
   /\ "k" <> ""
   /\ Mock.normal "/tmp/out.bin" = true
   /\ dirname "/tmp/out.bin" <> ""
   /\ dirname "/tmp/out.bin" ∈ Mock.local_dirs MoreExamples.file_world
   /\ ("/tmp/out.bin" ∉ Mock.local_dirs MoreExamples.file_world))
  /\ result up = Returned tt
  /\ result down = Returned tt
  /\ Mock.local_files (final down) !! "/tmp/out.bin"
     = Some [Byte.xff; Byte.x00; Byte.x41].
Proof.
  cbn zeta.
  assert (h1 : Mock.local_files MoreExamples.file_world !! "/tmp/in.bin"
               = Some [Byte.xff; Byte.x00; Byte.x41]) by (vm_compute; reflexivity).
  assert (h2 : is_Some (Mock.buckets MoreExamples.file_world !! "other"))
    by (eexists; vm_compute; reflexivity).
  assert (h3 : "k" <> "") by discriminate.
  assert (h4 : Mock.normal "/tmp/out.bin" = true) by (vm_compute; reflexivity).
  assert (h5 : dirname "/tmp/out.bin" <> "") by (vm_compute; discriminate).
  assert (h6 : dirname "/tmp/out.bin" ∈ Mock.local_dirs MoreExamples.file_world)
    by (refine (bool_decide_eq_true_1 _ _); vm_compute; reflexivity).
  assert (h7 : "/tmp/out.bin" ∉ Mock.local_dirs MoreExamples.file_world)
    by (refine (bool_decide_eq_false_1 _ _); vm_compute; reflexivity).
  split; [exact (conj h1 (conj h2 (conj h3 (conj h4 (conj h5 (conj h6 h7))))))|].
  pose proof (upload_then_download_round_trip MoreExamples.file_world "other" "k"
                "/tmp/in.bin" "/tmp/out.bin" _ h1 h2 h3 h4 h5 h6 h7)
    as (Hup & Hdown & Hfile & _).
  exact (conj Hup (conj Hdown Hfile)).
Defined.

(** [iterate_keys_lists_prefix] under "a/" of the small tree, two keys
    to the page. *)
Lemma iterate_keys_lists_prefix_witness :
  let r := iterate_keys (E := Mock.env) 6 "bk" "a/" Examples.tree_world in
  (Mock.buckets Examples.tree_world !! "bk" = Some Examples.tree_objects
   /\ Examples.tree_objects !! "" = None
   /\ 0 < Mock.page_limit Examples.tree_world
   /\ S (size Examples.tree_objects) <= 6)
  /\ result r = Returned tt
  /\ ascending (yields (trace r))
  /\ (forall k, k ∈ yields (trace r) <->
                k ∈ dom Examples.tree_objects /\ exists rest, k = "a/" +:+ rest)
  /\ length (listing_calls (trace r))
     = page_count (length (yields (trace r)))
                  (Nat.min (Z.to_nat keys_per_page) (Mock.page_limit Examples.tree_world))
  /\ final r = Examples.tree_world.
Proof.
  cbn zeta.
  assert (h1 : Mock.buckets Examples.tree_world !! "bk" = Some Examples.tree_objects)
    by reflexivity.
  assert (h2 : Examples.tree_objects !! "" = None) by (vm_compute; reflexivity).
  assert (h3 : 0 < Mock.page_limit Examples.tree_world) by (vm_compute; lia).
  assert (h4 : S (size Examples.tree_objects) <= 6) by (vm_compute; lia).
  split; [exact (conj h1 (conj h2 (conj h3 h4)))|].
  exact (iterate_keys_lists_prefix Examples.tree_world "bk" "a/" Examples.tree_objects 6
           h1 h2 h3 h4).
Defined.

(** [write_file_then_listed] for a new key under "a/". *)
Lemma write_file_then_listed_witness :
  let written := write_file (E := Mock.env) "bk" "a/new" "hi" Examples.tree_world in
  let r := iterate_keys (E := Mock.env) 7 "bk" "a/" (final written) in
  (Mock.buckets Examples.tree_world !! "bk" = Some Examples.tree_objects
   /\ Examples.tree_objects !! "" = None
   /\ "a/new" = "a/" +:+ "new" /\ "a/new" <> ""
   /\ 0 < Mock.page_limit Examples.tree_world
   /\ S (S (size Examples.tree_objects)) <= 7)
  /\ result written = Returned tt
  /\ result r = Returned tt
  /\ "a/new" ∈ yields (trace r)
  /\ NoDup (yields (trace r)).
Proof.
  cbn zeta.
  assert (h1 : Mock.buckets Examples.tree_world !! "bk" = Some Examples.tree_objects)
    by reflexivity.
  assert (h2 : Examples.tree_objects !! "" = None) by (vm_compute; reflexivity).
  assert (h3 : "a/new" = "a/" +:+ "new") by reflexivity.
  assert (h4 : "a/new" <> "") by discriminate.
  assert (h5 : 0 < Mock.page_limit Examples.tree_world) by (vm_compute; lia).
  assert (h6 : S (S (size Examples.tree_objects)) <= 7) by (vm_compute; lia).
  split; [exact (conj h1 (conj h2 (conj h3 (conj h4 (conj h5 h6)))))|].
  pose proof (write_file_then_listed Examples.tree_world "bk" "a/new" "hi" "a/" "new"
                Examples.tree_objects 7 h1 h2 h3 h4 h5 h6)
    as (Hw & Hr & Hin & Hnd & _).
  exact (conj Hw (conj Hr (conj Hin Hnd))).
Defined.

(** [delete_file_then_gone] for a key of the small tree. *)
Lemma delete_file_then_gone_witness :
  let deleted := delete_file (E := Mock.env) "bk" "a/c" Examples.tree_world in
  let r := iterate_keys (E := Mock.env) 6 "bk" "a/" (final deleted) in
  (Mock.buckets Examples.tree_world !! "bk" = Some Examples.tree_objects
   /\ Examples.tree_objects !! "" = None
   /\ 0 < Mock.page_limit Examples.tree_world
   /\ S (size Examples.tree_objects) <= 6)
  /\ result deleted = Returned tt
  /\ result (read_file (E := Mock.env) "bk" "a/c" "utf-8" (final deleted))
     = Raised (ClientError "NoSuchKey")
  /\ result r = Returned tt
  /\ ("a/c" ∉ yields (trace r)).
Proof.
  cbn zeta.
  assert (h1 : Mock.buckets Examples.tree_world !! "bk" = Some Examples.tree_objects)
    by reflexivity.
  assert (h2 : Examples.tree_objects !! "" = None) by (vm_compute; reflexivity).
  assert (h3 : 0 < Mock.page_limit Examples.tree_world) by (vm_compute; lia).
  assert (h4 : S (size Examples.tree_objects) <= 6) by (vm_compute; lia).
  split; [exact (conj h1 (conj h2 (conj h3 h4)))|].
  pose proof (delete_file_then_gone Examples.tree_world "bk" "a/c" "a/" "utf-8"
                Examples.tree_objects 6 h1 h2 h3 h4)
    as (Hd & Hread & Hr & Hnot & _).
  exact (conj Hd (conj Hread (conj Hr Hnot))).
Defined.

(** [write_file_then_size] for a text with a character of two bytes:
    five characters, six bytes. *)
Lemma write_file_then_size_witness :
  let written := write_file (E := Mock.env) "bk" "greeting" "héllo" Examples.tmp_world in
  is_Some (Mock.buckets Examples.tmp_world !! "bk")
  /\ result written = Returned tt
  /\ result (get_file_size (E := Mock.env) "bk" "greeting" (final written))
     = Returned 6%Z.
Proof.
  cbn zeta.
  assert (h1 : is_Some (Mock.buckets Examples.tmp_world !! "bk"))
    by (eexists; reflexivity).
  split; [exact h1|].
  exact (write_file_then_size Examples.tmp_world "bk" "greeting" "héllo" h1).
Defined.

(** [dirs_are_prefixes_of_keys] at a directory of the small tree. *)
Lemma dirs_are_prefixes_of_keys_witness :
  let dirs := yields (trace (iterate_dirs (E := Mock.env) 48 "bk" "" Examples.tree_world)) in
  let keys := yields (trace (iterate_keys (E := Mock.env) 6 "bk" "" Examples.tree_world)) in
  (Mock.buckets Examples.tree_world !! "bk" = Some Examples.tree_objects
   /\ Examples.tree_objects !! "" = None
   /\ 0 < Mock.page_limit Examples.tree_world
   /\ S (height (Mock.sorted_keys Examples.tree_objects))
      * S (size Examples.tree_objects) <= 48
   /\ S (size Examples.tree_objects) <= 6)
  /\ ("a/b/" ∈ dirs <->
      exists k s r, k ∈ keys /\ "a/b/" = "" +:+ s +:+ "/" /\ k = "a/b/" +:+ r).
Proof.
  cbn zeta.
  assert (h1 : Mock.buckets Examples.tree_world !! "bk" = Some Examples.tree_objects)
    by reflexivity.
  assert (h2 : Examples.tree_objects !! "" = None) by (vm_compute; reflexivity).
  assert (h3 : 0 < Mock.page_limit Examples.tree_world) by (vm_compute; lia).
  assert (h4 : S (height (Mock.sorted_keys Examples.tree_objects))
               * S (size Examples.tree_objects) <= 48) by (vm_compute; lia).
  assert (h5 : S (size Examples.tree_objects) <= 6) by (vm_compute; lia).
  split; [exact (conj h1 (conj h2 (conj h3 (conj h4 h5))))|].
  exact (dirs_are_prefixes_of_keys Examples.tree_world "bk" "" Examples.tree_objects
           48 6 h1 h2 h3 h4 h5 "a/b/").
Defined.

(** [copy_file_copies_object] from one bucket to another. *)
Lemma copy_file_copies_object_witness :
  let copied := copy_file (E := Mock.env) "bk" "docs/a.txt" "other" "a.txt"
                  MoreExamples.file_world in
  ("bk" <> "" /\ contains_sep "bk" = false
   /\ "docs/a.txt" <> "" /\ startswith_sep "docs/a.txt" = false
   /\ (Mock.split_version (join "bk" "docs/a.txt")).2 = None
   /\ Mock.buckets MoreExamples.file_world !! "bk" = Some MoreExamples.file_world_objects
   /\ MoreExamples.file_world_objects !! "docs/a.txt" = Some (Examples.body "alpha")
   /\ is_Some (Mock.buckets MoreExamples.file_world !! "other")
   /\ "a.txt" <> ""
   /\ ("bk", "docs/a.txt") <> ("other", "a.txt"))
  /\ result copied = Returned tt
  /\ result (read_file (E := Mock.env) "other" "a.txt" "utf-8" (final copied))
     = result (read_file (E := Mock.env) "bk" "docs/a.txt" "utf-8" MoreExamples.file_world).
Proof.
  cbn zeta.
  assert (h1 : "bk" <> "") by discriminate.
  assert (h2 : contains_sep "bk" = false) by reflexivity.
  assert (h3 : "docs/a.txt" <> "") by discriminate.
  assert (h4 : startswith_sep "docs/a.txt" = false) by reflexivity.
  assert (h5 : (Mock.split_version (join "bk" "docs/a.txt")).2 = None)
    by (vm_compute; reflexivity).
  assert (h6 : Mock.buckets MoreExamples.file_world !! "bk"
               = Some MoreExamples.file_world_objects) by (vm_compute; reflexivity).
  assert (h7 : MoreExamples.file_world_objects !! "docs/a.txt"
               = Some (Examples.body "alpha")) by (vm_compute; reflexivity).
  assert (h8 : is_Some (Mock.buckets MoreExamples.file_world !! "other"))
    by (eexists; vm_compute; reflexivity).
  assert (h9 : "a.txt" <> "") by discriminate.
  assert (h10 : ("bk", "docs/a.txt") <> ("other", "a.txt")) by discriminate.
  split;
    [exact (conj h1 (conj h2 (conj h3 (conj h4 (conj h5 (conj h6 (conj h7
              (conj h8 (conj h9 h10)))))))))|].
  pose proof (proj1 (copy_file_copies_object MoreExamples.file_world "bk" "docs/a.txt"
                       "other" "a.txt" _ _ h1 h2 h3 h4 h5 h6 h7 h8 h9) h10)
    as (Hc & Hread & _).
  exact (conj Hc (Hread "utf-8")).
Defined.
